(** * The keepalive pinger of paho.golang (paho/pinger.go) and the
      conversion of the CONNECT properties (Connect.InitProperties),
      embedded in Rocq.

    The development follows the Go sources function by function.  Times are
    integers (nanoseconds counted from the zero [time.Time]), the pinger
    struct is a record, Go errors are a small inductive type with [Unwrap],
    and the blocking [Run] loop is driven by an explicit list of events: what
    the [select] statement receives, what the emitter goroutines do, and the
    notifications made by the client from other goroutines. *)

From Stdlib Require Import ZArith Lia Bool.
From Stdlib.Strings Require Import Byte.
From stdpp Require Import base list strings.

Local Open Scope string_scope.
Local Open Scope list_scope.
Local Open Scope Z_scope.

(** ** package time *)

Module time.

(** A [time.Time] is the number of nanoseconds since the zero Time; the zero
    value of the struct is [0].  [Before] and [After] compare instants, as
    Go does with the monotonic readings that [time.Now()] carries. *)
Abbreviation Time := Z (only parsing).

(** A [time.Duration] is a signed 64-bit count of nanoseconds. *)
Abbreviation Duration := Z (only parsing).

Definition Second : Duration := 1000000000.
Definition minDuration : Duration := - 2 ^ 63.
Definition maxDuration : Duration := 2 ^ 63 - 1.

Definition zero : Time := 0.

Definition IsZero (t : Time) : bool := t =? 0.
Definition Before (t u : Time) : bool := t <? u.
Definition After (t u : Time) : bool := t >? u.
Definition Add (t : Time) (d : Duration) : Time := t + d.

(** [t.Sub(u)] saturates at the largest and smallest Duration. *)
Definition Sub (t u : Time) : Duration :=
  if t - u >? maxDuration then maxDuration
  else if t - u <? minDuration then minDuration
  else t - u.

End time.

(** ** Go errors *)

(** [errorString] is what [fmt.Errorf] builds from a format without [%w];
    [wrapError] is what it builds with one [%w] operand: the formatted
    message together with the wrapped cause. *)
Inductive error : Type :=
| errorString (s : string)
| wrapError (msg : string) (err : error).

Definition Error (e : error) : string :=
  match e with
  | errorString s => s
  | wrapError msg _ => msg
  end.

Definition Unwrap (e : error) : option error :=
  match e with
  | errorString _ => None
  | wrapError _ err => Some err
  end.

(** [fmt.Errorf(prefix + "%w", err)] *)
Definition Errorf_w (prefix : string) (err : error) : error :=
  wrapError (prefix +:+ Error err) err.

(** [uint16]: the keepalive argument is never computed with, only compared
    with 0 and widened to a Duration. *)
Abbreviation uint16 := Z (only parsing).

(** ** DefaultPinger *)

(** Modelled from the spec: the package paho/log is not part of the sources;
    a logger is a pluggable sink of diagnostic lines with a no-op default
    (section 4.5).  [LineLogger] appends every line to the log of the
    world.  A pinger made by [NewDefaultPinger] and configured with
    [SetDebug] always has a logger: there is no nil logger here. *)
Inductive Logger : Type := NOOPLogger | LineLogger.

Record DefaultPinger : Type := mkPinger {
  lastPacketSent : time.Time;
  lastPacketReceived : time.Time;
  lastPingResponse : time.Time;
  debug : Logger;
  running : bool
}.

Definition NewDefaultPinger : DefaultPinger :=
  {| lastPacketSent := time.zero;
     lastPacketReceived := time.zero;
     lastPingResponse := time.zero;
     debug := NOOPLogger;
     running := false |}.

Definition set_running (b : bool) (p : DefaultPinger) : DefaultPinger :=
  {| lastPacketSent := lastPacketSent p;
     lastPacketReceived := lastPacketReceived p;
     lastPingResponse := lastPingResponse p;
     debug := debug p;
     running := b |}.

(** [PacketSent], [PacketReceived], [PingResp]: each stores the reading of
    [time.Now()], passed here as [now]. *)
Definition PacketSent (now : time.Time) (p : DefaultPinger) : DefaultPinger :=
  {| lastPacketSent := now;
     lastPacketReceived := lastPacketReceived p;
     lastPingResponse := lastPingResponse p;
     debug := debug p;
     running := running p |}.

Definition PacketReceived (now : time.Time) (p : DefaultPinger) : DefaultPinger :=
  {| lastPacketSent := lastPacketSent p;
     lastPacketReceived := now;
     lastPingResponse := lastPingResponse p;
     debug := debug p;
     running := running p |}.

Definition PingResp (now : time.Time) (p : DefaultPinger) : DefaultPinger :=
  {| lastPacketSent := lastPacketSent p;
     lastPacketReceived := lastPacketReceived p;
     lastPingResponse := now;
     debug := debug p;
     running := running p |}.

Definition SetDebug (d : Logger) (p : DefaultPinger) : DefaultPinger :=
  {| lastPacketSent := lastPacketSent p;
     lastPacketReceived := lastPacketReceived p;
     lastPingResponse := lastPingResponse p;
     debug := d;
     running := running p |}.

(** The deadline of lines 110-115, computed under the mutex from one
    snapshot of the traffic state. *)
Definition pingDue (p : DefaultPinger) (interval : time.Duration) : time.Time :=
  if time.Before (lastPacketSent p) (lastPacketReceived p)
  then time.Add (lastPacketSent p) interval
  else time.Add (lastPacketReceived p) interval.

Definition interval_of (keepAlive : uint16) : time.Duration :=
  keepAlive * time.Second.


(** ** The world around a Run *)

(** A live [net.Conn] is named by a handle; the nil interface value is
    [None] at the call. *)
Definition Conn := nat.

(** Modelled from the spec: the package packets is not part of the sources;
    the wire form of a PINGREQ is the two bytes 0xC0 0x00 (section 6). *)
Definition PINGREQ : list byte := [Byte.xc0; Byte.x00].

(** [writes]: every completed [WriteTo] on a transport, with its result;
    [logged]: the lines handed to a [LineLogger]. *)
Record World : Type := mkWorld {
  writes : list (Conn * list byte * option error);
  logged : list string
}.

Definition println (l : Logger) (line : string) (w : World) : World :=
  match l with
  | NOOPLogger => w
  | LineLogger => {| writes := writes w; logged := logged w ++ [line] |}
  end.

Definition record_write (c : Conn) (res : option error) (w : World) : World :=
  {| writes := writes w ++ [(c, PINGREQ, res)]; logged := logged w |}.

(** An emitter goroutine (lines 129-138): it is in [WriteTo], or it is
    blocked in [errCh <- err], or it has ended. *)
Inductive emitter : Type :=
| Writing
| Sending (err : error)
| Exited.

(** The local variables of one Run, with the channel and the goroutines it
    made; these two outlive the call. *)
Record Frame : Type := mkFrame {
  conn : Conn;
  interval : time.Duration;
  timer : time.Duration;      (* what the timer was last armed with *)
  lastPingSent : time.Time;
  errCh : list error;         (* the buffer of the channel *)
  emitters : list emitter
}.

(** [make(chan error, 1)] *)
Definition errCh_cap : nat := 1.

Definition set_timer (d : time.Duration) (f : Frame) : Frame :=
  {| conn := conn f; interval := interval f; timer := d;
     lastPingSent := lastPingSent f; errCh := errCh f;
     emitters := emitters f |}.

Definition set_lastPingSent (t : time.Time) (f : Frame) : Frame :=
  {| conn := conn f; interval := interval f; timer := timer f;
     lastPingSent := t; errCh := errCh f; emitters := emitters f |}.

Definition set_errCh (ch : list error) (f : Frame) : Frame :=
  {| conn := conn f; interval := interval f; timer := timer f;
     lastPingSent := lastPingSent f; errCh := ch; emitters := emitters f |}.

Definition set_emitters (es : list emitter) (f : Frame) : Frame :=
  {| conn := conn f; interval := interval f; timer := timer f;
     lastPingSent := lastPingSent f; errCh := errCh f; emitters := es |}.

(** [go func() { ... }()] *)
Definition spawn_emitter (f : Frame) : Frame :=
  set_emitters (emitters f ++ [Writing]) f.

(** How a Run leaves: by a [return], or by a panic that unwinds it. *)
Inductive exit : Type :=
| Return (err : option error)
| Panicked.

(** ** Run, up to the loop (lines 72-98) *)

Inductive entry : Type :=
| Early (err : option error) (w : World)
| Started (p : DefaultPinger) (f : Frame).

Definition Run_entry (p : DefaultPinger) (w : World)
    (conn : option Conn) (keepAlive : uint16) : entry :=
  if keepAlive =? 0 then
    Early None
      (println (debug p) "Run() returning immediately due to keepAlive == 0" w)
  else
    match conn with
    | None => Early (Some (errorString "conn is nil")) w
    | Some c =>
        if running p then
          Early (Some (errorString "Run() already in progress")) w
        else
          Started (set_running true p)
            {| conn := c;
               interval := interval_of keepAlive;
               timer := 0;
               lastPingSent := time.zero;
               errCh := [];
               emitters := [] |}
    end.

(** The deferred calls: [timer.Stop()], then the flag is given back under
    the mutex. *)
Definition Run_deferred (p : DefaultPinger) : DefaultPinger :=
  set_running false p.

(** ** The loop (lines 99-143) *)

(** What can happen while a Run is in its [select]: the three cases of the
    select, a panic in the body, the steps of the emitter goroutines
    ([i] is the position of the goroutine in [emitters]), and the
    notifications of the client.  [EvTimer t now] carries the value [t]
    read from [timer.C] and the reading [now] that [time.Now()] gives on
    line 128. *)
Inductive event : Type :=
| EvCtxDone
| EvTimer (t now : time.Time)
| EvErrCh
| EvPanic
| EvWriteTo (i : nat) (res : option error)
| EvSend (i : nat)
| EvPacketSent (now : time.Time)
| EvPacketReceived (now : time.Time)
| EvPingResp (now : time.Time).

Inductive step_result : Type :=
| Continue (p : DefaultPinger) (w : World) (f : Frame)
| Exit (r : exit) (p : DefaultPinger) (w : World) (f : Frame).

(** The timer case with the deadline [due] already computed
    (lines 118-139). *)
Definition tick_with (due : time.Time) (p : DefaultPinger) (w : World)
    (f : Frame) (t now : time.Time) : step_result :=
  if negb (time.IsZero (lastPingSent f))
     && time.After (lastPingSent f) (lastPingResponse p)
  then
    Exit (Return (Some (errorString "PINGRESP timed out"))) p
      (println (debug p) "DefaultPinger PINGRESP timeout" w) f
  else if time.Before t due then
    Continue p w (set_timer (time.Sub due t) f)
  else
    Continue p w
      (set_timer (interval f) (spawn_emitter (set_lastPingSent now f))).

(** The timer case (lines 103-139). *)
Definition tick (p : DefaultPinger) (w : World) (f : Frame)
    (t now : time.Time) : step_result :=
  tick_with (pingDue p (interval f)) p w f t now.

(** [errCh <- err] by goroutine [i]: it goes through when the buffer has
    room and blocks otherwise. *)
Definition chan_send (i : nat) (err : error) (f : Frame) : Frame :=
  if (length (errCh f) <? errCh_cap)%nat then
    set_emitters (<[i := Exited]> (emitters f)) (set_errCh (errCh f ++ [err]) f)
  else
    set_emitters (<[i := Sending err]> (emitters f)) f.

(** The body of the emitter goroutine once its [WriteTo] has returned
    [res]. *)
Definition emitter_WriteTo (i : nat) (res : option error)
    (p : DefaultPinger) (w : World) (f : Frame) : World * Frame :=
  match emitters f !! i with
  | Some Writing =>
      match res with
      | None =>
          (record_write (conn f) None w,
           set_emitters (<[i := Exited]> (emitters f)) f)
      | Some err =>
          (println (debug p)
             ("DefaultPinger packet write error: " +:+ Error err)
             (record_write (conn f) (Some err) w),
           chan_send i (Errorf_w "failed to send PINGREQ: " err) f)
      end
  | _ => (w, f)
  end.

(** A goroutine blocked in its send tries again. *)
Definition emitter_Send (i : nat) (f : Frame) : Frame :=
  match emitters f !! i with
  | Some (Sending err) => chan_send i err f
  | _ => f
  end.

(** The effect of an event on the pinger: only the notifications write
    it. *)
Definition notify (e : event) (p : DefaultPinger) : DefaultPinger :=
  match e with
  | EvPacketSent now => PacketSent now p
  | EvPacketReceived now => PacketReceived now p
  | EvPingResp now => PingResp now p
  | _ => p
  end.

(** The effect of an event on the goroutines of a frame. *)
Definition goroutines (e : event) (p : DefaultPinger) (w : World)
    (f : Frame) : World * Frame :=
  match e with
  | EvWriteTo i res => emitter_WriteTo i res p w f
  | EvSend i => (w, emitter_Send i f)
  | _ => (w, f)
  end.

(** One event while the Run is in its loop. *)
Definition loop_step (e : event) (p : DefaultPinger) (w : World)
    (f : Frame) : step_result :=
  match e with
  | EvCtxDone => Exit (Return None) p w f
  | EvTimer t now => tick p w f t now
  | EvErrCh =>
      match errCh f with
      | [] => Continue p w f
      | err :: rest => Exit (Return (Some err)) p w (set_errCh rest f)
      end
  | EvPanic => Exit Panicked p w f
  | _ =>
      let '(w', f') := goroutines e p w f in
      Continue (notify e p) w' f'
  end.

(** The result of a Run driven by a list of events: how it left ([None]
    when the events are used up and the Run still waits in its select), the
    pinger and the world at that point, and the frame if the loop was
    entered. *)
Definition result : Type :=
  option exit * DefaultPinger * World * option Frame.

Fixpoint Run_loop (evs : list event) (p : DefaultPinger) (w : World)
    (f : Frame) : result :=
  match evs with
  | [] => (None, p, w, Some f)
  | e :: evs' =>
      match loop_step e p w f with
      | Continue p' w' f' => Run_loop evs' p' w' f'
      | Exit r p' w' f' => (Some r, Run_deferred p', w', Some f')
      end
  end.

Definition Run (p : DefaultPinger) (w : World) (conn : option Conn)
    (keepAlive : uint16) (evs : list event) : result :=
  match Run_entry p w conn keepAlive with
  | Early err w' => (Some (Return err), p, w', None)
  | Started p' f => Run_loop evs p' w f
  end.

(** The events that report a failed write of an emitter. *)
Definition is_failure (e : event) : bool :=
  match e with
  | EvWriteTo _ (Some _) => true
  | _ => false
  end.

(** The events that are a case of the select, or a panic of the controller;
    the others are steps of other goroutines. *)
Definition is_controller (e : event) : bool :=
  match e with
  | EvCtxDone | EvTimer _ _ | EvErrCh | EvPanic => true
  | _ => false
  end.

Definition is_sending (em : emitter) : bool :=
  match em with
  | Sending _ => true
  | _ => false
  end.

(** Nothing is in the channel and no emitter waits to send. *)
Definition no_pending (f : Frame) : Prop :=
  errCh f = [] /\ Forall (fun em => is_sending em = false) (emitters f).

(** ** Several Runs on one pinger *)

(** Calls of [Run] from different goroutines share the pinger.  Everything
    a Run does to the pinger it does under [p.mu], so the calls interleave
    at the grain of these steps: the entry (lines 72-98), one event of the
    loop, and the deferred calls that run when the Run returns or
    panics. *)
Inductive phase : Type :=
| Called
| InLoop
| Unwinding (r : exit)
| Finished (r : exit).

Record activity : Type := mkActivity {
  a_conn : option Conn;
  a_keepAlive : uint16;
  a_phase : phase;
  a_frame : option Frame
}.

Definition call (c : option Conn) (keepAlive : uint16) : activity :=
  mkActivity c keepAlive Called None.

Definition set_phase (ph : phase) (a : activity) : activity :=
  mkActivity (a_conn a) (a_keepAlive a) ph (a_frame a).

Definition set_frame (f : Frame) (a : activity) : activity :=
  mkActivity (a_conn a) (a_keepAlive a) (a_phase a) (Some f).

Definition act_invoke (p : DefaultPinger) (w : World) (a : activity)
    : DefaultPinger * World * activity :=
  match a_phase a with
  | Called =>
      match Run_entry p w (a_conn a) (a_keepAlive a) with
      | Early err w' => (p, w', set_phase (Finished (Return err)) a)
      | Started p' f => (p', w, set_phase InLoop (set_frame f a))
      end
  | _ => (p, w, a)
  end.

Definition act_event (e : event) (p : DefaultPinger) (w : World)
    (a : activity) : DefaultPinger * World * activity :=
  match a_frame a with
  | None => (notify e p, w, a)
  | Some f =>
      match a_phase a with
      | InLoop =>
          match loop_step e p w f with
          | Continue p' w' f' => (p', w', set_frame f' a)
          | Exit r p' w' f' => (p', w', set_phase (Unwinding r) (set_frame f' a))
          end
      | _ =>
          let '(w', f') := goroutines e p w f in
          (notify e p, w', set_frame f' a)
      end
  end.

Definition act_defer (p : DefaultPinger) (w : World) (a : activity)
    : DefaultPinger * World * activity :=
  match a_phase a with
  | Unwinding r => (Run_deferred p, w, set_phase (Finished r) a)
  | _ => (p, w, a)
  end.

Record System : Type := mkSystem {
  pinger : DefaultPinger;
  world : World;
  acts : list activity
}.

Inductive sys_event : Type :=
| Invoke (a : nat)
| Ev (a : nat) (e : event)
| Defer (a : nat).

Definition actor (ev : sys_event) : nat :=
  match ev with
  | Invoke a | Ev a _ | Defer a => a
  end.

Definition act_step (ev : sys_event)
    : DefaultPinger -> World -> activity -> DefaultPinger * World * activity :=
  match ev with
  | Invoke _ => act_invoke
  | Ev _ e => act_event e
  | Defer _ => act_defer
  end.

Definition sys_step (ev : sys_event) (s : System) : System :=
  match acts s !! actor ev with
  | None => s
  | Some a =>
      let '(p, w, a') := act_step ev (pinger s) (world s) a in
      mkSystem p w (<[actor ev := a']> (acts s))
  end.

Fixpoint sys_exec (tr : list sys_event) (s : System) : System :=
  match tr with
  | [] => s
  | ev :: tr' => sys_exec tr' (sys_step ev s)
  end.

(** A system before any of its calls has started. *)
Definition sys_init (p : DefaultPinger) (w : World)
    (calls : list (option Conn * uint16)) : System :=
  mkSystem (set_running false p) w (map (fun c => call (fst c) (snd c)) calls).

(** An activity holds the flag from its entry to its deferred call. *)
Definition holds (a : activity) : bool :=
  match a_phase a with
  | InLoop | Unwinding _ => true
  | _ => false
  end.

Definition weight (a : activity) : nat := if holds a then 1 else 0.

Fixpoint n_holding (l : list activity) : nat :=
  match l with
  | [] => 0
  | a :: l' => weight a + n_holding l'
  end.

(** The step [ev] taken from [s] is a step of activity [a] that turns the
    flag on (resp. off). *)
Definition sets_flag (a : nat) (ev : sys_event) (s : System) : bool :=
  (actor ev =? a)%nat
  && negb (running (pinger s)) && running (pinger (sys_step ev s)).

Definition clears_flag (a : nat) (ev : sys_event) (s : System) : bool :=
  (actor ev =? a)%nat
  && running (pinger s) && negb (running (pinger (sys_step ev s))).

Fixpoint count_steps (P : sys_event -> System -> bool)
    (tr : list sys_event) (s : System) : nat :=
  match tr with
  | [] => 0
  | ev :: tr' => ((if P ev s then 1 else 0) + count_steps P tr' (sys_step ev s))%nat
  end.

(** The flag is on exactly when one activity holds it, and no more than one
    does. *)
Definition flag_inv (s : System) : Prop :=
  n_holding (acts s) = (if running (pinger s) then 1 else 0)%nat.

(** ** Traffic notifications as a sequence of calls *)

Inductive notification : Type :=
| CallPacketSent
| CallPacketReceived
| CallPingResp.

Definition do_call (c : notification * time.Time) (p : DefaultPinger)
    : DefaultPinger :=
  match fst c with
  | CallPacketSent => PacketSent (snd c) p
  | CallPacketReceived => PacketReceived (snd c) p
  | CallPingResp => PingResp (snd c) p
  end.

Definition event_of (c : notification * time.Time) : event :=
  match fst c with
  | CallPacketSent => EvPacketSent (snd c)
  | CallPacketReceived => EvPacketReceived (snd c)
  | CallPingResp => EvPingResp (snd c)
  end.

Definition do_calls (cs : list (notification * time.Time))
    (p : DefaultPinger) : DefaultPinger :=
  fold_left (fun q c => do_call c q) cs p.

(** The clock: every reading is after the zero Time and none is before
    [last], the reading before it. *)
Fixpoint clock_ok (last : time.Time) (cs : list (notification * time.Time))
    : Prop :=
  match cs with
  | [] => True
  | c :: cs' => 0 < snd c /\ last <= snd c /\ clock_ok (snd c) cs'
  end.

(** The stamps of a pinger are zero or earlier readings of the clock. *)
Definition stamps_ok (last : time.Time) (p : DefaultPinger) : Prop :=
  0 <= lastPacketSent p <= last /\
  0 <= lastPacketReceived p <= last /\
  0 <= lastPingResponse p <= last.

Definition stamps_eq (p q : DefaultPinger) : Prop :=
  lastPacketSent p = lastPacketSent q /\
  lastPacketReceived p = lastPacketReceived q /\
  lastPingResponse p = lastPingResponse q.

Definition stamps_le (p q : DefaultPinger) : Prop :=
  lastPacketSent p <= lastPacketSent q /\
  lastPacketReceived p <= lastPacketReceived q /\
  lastPingResponse p <= lastPingResponse q.

Definition stamps_stay_set (p q : DefaultPinger) : Prop :=
  (lastPacketSent p <> 0 -> lastPacketSent q <> 0) /\
  (lastPacketReceived p <> 0 -> lastPacketReceived q <> 0) /\
  (lastPingResponse p <> 0 -> lastPingResponse q <> 0).

(** ** Connect.InitProperties *)

(** A Go function that dereferences a pointer either completes or panics
    with a nil dereference; both carry the receiver as it is then. *)
Inductive outcome (A : Type) : Type :=
| Completed (a : A)
| NilDereference (a : A).
Arguments Completed {A} a.
Arguments NilDereference {A} a.

Section Connect.

(** The user properties and their conversion are declared in files that
    are not part of the sources: they are parameters here. *)
Variables PacketUser UserProperties : Type.
Variable UserPropertiesFromPacketUser : list PacketUser -> UserProperties.

(** Modelled from the spec: the declaration of [packets.Properties] is not
    part of the sources.  These are the fields that [InitProperties] reads,
    with the types of the fields they are copied to; a pointer is an option,
    and the two request flags are optional, pointers to a byte that is
    compared with 1. *)
Record Properties : Type := mkProperties {
  p_SessionExpiryInterval : option Z;
  p_AuthMethod : string;
  p_AuthData : list byte;
  p_WillDelayInterval : option Z;
  p_RequestResponseInfo : option Z;
  p_RequestProblemInfo : option Z;
  p_ReceiveMaximum : option Z;
  p_TopicAliasMaximum : option Z;
  p_MaximumPacketSize : option Z;
  p_User : list PacketUser
}.

Record ConnectProperties : Type := mkConnectProperties {
  AuthData : list byte;
  AuthMethod : string;
  SessionExpiryInterval : option Z;
  WillDelayInterval : option Z;
  ReceiveMaximum : option Z;
  TopicAliasMaximum : option Z;
  MaximumPacketSize : option Z;
  User : UserProperties;
  RequestProblemInfo : bool;
  RequestResponseInfo : bool
}.

Record WillMessage : Type := mkWillMessage {
  Retain : bool;
  QoS : Z;
  Topic : string;
  Payload : list byte
}.

Record WillProperties : Type := mkWillProperties {
  wp_WillDelayInterval : option Z;
  wp_PayloadFormat : option Z;
  wp_MessageExpiry : option Z;
  wp_ContentType : string;
  wp_ResponseTopic : string;
  wp_CorrelationData : list byte;
  wp_User : UserProperties
}.

Record Connect : Type := mkConnect {
  Password : list byte;
  Username : string;
  ClientID : string;
  c_Properties : option ConnectProperties;
  c_WillMessage : option WillMessage;
  c_WillProperties : option WillProperties;
  KeepAlive : uint16;
  CleanStart : bool;
  UsernameFlag : bool;
  PasswordFlag : bool
}.

Definition set_Properties (cp : ConnectProperties) (c : Connect) : Connect :=
  {| Password := Password c; Username := Username c;
     ClientID := ClientID c; c_Properties := Some cp;
     c_WillMessage := c_WillMessage c;
     c_WillProperties := c_WillProperties c; KeepAlive := KeepAlive c;
     CleanStart := CleanStart c; UsernameFlag := UsernameFlag c;
     PasswordFlag := PasswordFlag c |}.

Definition set_RequestResponseInfo (b : bool) (cp : ConnectProperties)
    : ConnectProperties :=
  {| AuthData := AuthData cp; AuthMethod := AuthMethod cp;
     SessionExpiryInterval := SessionExpiryInterval cp;
     WillDelayInterval := WillDelayInterval cp;
     ReceiveMaximum := ReceiveMaximum cp;
     TopicAliasMaximum := TopicAliasMaximum cp;
     MaximumPacketSize := MaximumPacketSize cp;
     User := User cp;
     RequestProblemInfo := RequestProblemInfo cp;
     RequestResponseInfo := b |}.

Definition set_RequestProblemInfo (b : bool) (cp : ConnectProperties)
    : ConnectProperties :=
  {| AuthData := AuthData cp; AuthMethod := AuthMethod cp;
     SessionExpiryInterval := SessionExpiryInterval cp;
     WillDelayInterval := WillDelayInterval cp;
     ReceiveMaximum := ReceiveMaximum cp;
     TopicAliasMaximum := TopicAliasMaximum cp;
     MaximumPacketSize := MaximumPacketSize cp;
     User := User cp;
     RequestProblemInfo := b;
     RequestResponseInfo := RequestResponseInfo cp |}.

(** The composite literal of lines 55-66. *)
Definition init_literal (p : Properties) : ConnectProperties :=
  {| SessionExpiryInterval := p_SessionExpiryInterval p;
     AuthMethod := p_AuthMethod p;
     AuthData := p_AuthData p;
     WillDelayInterval := p_WillDelayInterval p;
     RequestResponseInfo := false;
     RequestProblemInfo := true;
     ReceiveMaximum := p_ReceiveMaximum p;
     TopicAliasMaximum := p_TopicAliasMaximum p;
     MaximumPacketSize := p_MaximumPacketSize p;
     User := UserPropertiesFromPacketUser (p_User p) |}.

(** Lines 54-74.  The first conditional tests [p.RequestResponseInfo] and
    then dereferences [p.RequestProblemInfo]. *)
Definition InitProperties (c : Connect) (p : Properties) : outcome Connect :=
  let cp := init_literal p in
  match p_RequestResponseInfo p with
  | Some _ =>
      match p_RequestProblemInfo p with
      | None => NilDereference (set_Properties cp c)
      | Some v =>
          Completed
            (set_Properties
               (set_RequestProblemInfo (v =? 1)
                  (set_RequestResponseInfo (v =? 1) cp)) c)
      end
  | None =>
      match p_RequestProblemInfo p with
      | None => Completed (set_Properties cp c)
      | Some v => Completed (set_Properties (set_RequestProblemInfo (v =? 1) cp) c)
      end
  end.

(** The two flags as the specification words them: independent optional
    booleans defaulting to false and true, each driven by its own source
    field. *)
Definition spec_RequestResponseInfo (p : Properties) : bool :=
  match p_RequestResponseInfo p with
  | None => false
  | Some v => v =? 1
  end.

Definition spec_RequestProblemInfo (p : Properties) : bool :=
  match p_RequestProblemInfo p with
  | None => true
  | Some v => v =? 1
  end.

Definition spec_InitProperties (c : Connect) (p : Properties) : outcome Connect :=
  Completed
    (set_Properties
       (set_RequestProblemInfo (spec_RequestProblemInfo p)
          (set_RequestResponseInfo (spec_RequestResponseInfo p)
             (init_literal p))) c).

(** *** The packets and the conversions both ways *)

(** Two helpers that are declared in files that are not part of the
    sources: [UserProperties.ToPacketProperties], and [Byte], which the
    sources call as [Byte(1)] and [Byte(0)] to get a pointer to a byte. *)
Variable ToPacketProperties : UserProperties -> list PacketUser.
Variable Byte : Z -> option Z.

(** Modelled from the spec: the declaration of [packets.Properties] is not
    part of the sources.  These are the fields that the will and the Auth
    conversions use besides those of [Properties]; a [packets.Properties] is
    the two records together. *)
Record PropertiesRest : Type := mkPropertiesRest {
  p_PayloadFormat : option Z;
  p_MessageExpiry : option Z;
  p_ContentType : string;
  p_ResponseTopic : string;
  p_CorrelationData : list byte;
  p_ReasonString : string
}.

Definition PacketProperties : Type := Properties * PropertiesRest.

(** The zero values of the fields that a composite literal leaves out. *)
Definition zero_Properties : Properties :=
  mkProperties None EmptyString [] None None None None None None [].

Definition zero_PropertiesRest : PropertiesRest :=
  mkPropertiesRest None None EmptyString EmptyString [] EmptyString.

(** Modelled from the spec: the declaration of [packets.Connect] is not part
    of the sources.  These are the fields that the conversions read and
    write. *)
Record PacketConnect : Type := mkPacketConnect {
  pc_WillMessage : list byte;
  pc_Password : list byte;
  pc_Username : string;
  pc_ClientID : string;
  pc_WillTopic : string;
  pc_Properties : option PacketProperties;
  pc_WillProperties : option PacketProperties;
  pc_KeepAlive : uint16;
  pc_WillQOS : Z;
  pc_PasswordFlag : bool;
  pc_UsernameFlag : bool;
  pc_WillRetain : bool;
  pc_WillFlag : bool;
  pc_CleanStart : bool
}.

Definition set_WillMessage (m : WillMessage) (c : Connect) : Connect :=
  {| Password := Password c; Username := Username c;
     ClientID := ClientID c; c_Properties := c_Properties c;
     c_WillMessage := Some m;
     c_WillProperties := c_WillProperties c; KeepAlive := KeepAlive c;
     CleanStart := CleanStart c; UsernameFlag := UsernameFlag c;
     PasswordFlag := PasswordFlag c |}.

Definition set_WillProperties (wp : WillProperties) (c : Connect) : Connect :=
  {| Password := Password c; Username := Username c;
     ClientID := ClientID c; c_Properties := c_Properties c;
     c_WillMessage := c_WillMessage c;
     c_WillProperties := Some wp; KeepAlive := KeepAlive c;
     CleanStart := CleanStart c; UsernameFlag := UsernameFlag c;
     PasswordFlag := PasswordFlag c |}.

(** [InitProperties] called with a pointer that may be nil: the first field
    access panics on nil. *)
Definition InitProperties_at (c : Connect) (p : option PacketProperties)
    : outcome Connect :=
  match p with
  | None => NilDereference c
  | Some pp => InitProperties c (fst pp)
  end.

(** Lines 79-89. *)
Definition InitWillProperties (c : Connect) (p : option PacketProperties)
    : outcome Connect :=
  match p with
  | None => NilDereference c
  | Some pp =>
      Completed
        (set_WillProperties
           {| wp_WillDelayInterval := p_WillDelayInterval (fst pp);
              wp_PayloadFormat := p_PayloadFormat (snd pp);
              wp_MessageExpiry := p_MessageExpiry (snd pp);
              wp_ContentType := p_ContentType (snd pp);
              wp_ResponseTopic := p_ResponseTopic (snd pp);
              wp_CorrelationData := p_CorrelationData (snd pp);
              wp_User := UserPropertiesFromPacketUser (p_User (fst pp)) |} c)
  end.

(** Lines 93-115. *)
Definition ConnectFromPacketConnect (p : PacketConnect) : outcome Connect :=
  let v := {| UsernameFlag := pc_UsernameFlag p;
              Username := pc_Username p;
              PasswordFlag := pc_PasswordFlag p;
              Password := pc_Password p;
              ClientID := pc_ClientID p;
              CleanStart := pc_CleanStart p;
              KeepAlive := pc_KeepAlive p;
              c_Properties := None;
              c_WillMessage := None;
              c_WillProperties := None |} in
  match InitProperties_at v (pc_Properties p) with
  | NilDereference v' => NilDereference v'
  | Completed v1 =>
      if pc_WillFlag p then
        InitWillProperties
          (set_WillMessage
             {| Retain := pc_WillRetain p;
                QoS := pc_WillQOS p;
                Topic := pc_WillTopic p;
                Payload := pc_WillMessage p |} v1)
          (pc_WillProperties p)
      else Completed v1
  end.

(** The properties of lines 131-146. *)
Definition Packet_Properties (cp : ConnectProperties) : PacketProperties :=
  ({| p_SessionExpiryInterval := SessionExpiryInterval cp;
      p_AuthMethod := AuthMethod cp;
      p_AuthData := AuthData cp;
      p_WillDelayInterval := WillDelayInterval cp;
      p_RequestResponseInfo :=
        if RequestResponseInfo cp then Byte 1 else None;
      p_RequestProblemInfo :=
        if negb (RequestProblemInfo cp) then Byte 0 else None;
      p_ReceiveMaximum := ReceiveMaximum cp;
      p_TopicAliasMaximum := TopicAliasMaximum cp;
      p_MaximumPacketSize := MaximumPacketSize cp;
      p_User := ToPacketProperties (User cp) |},
   zero_PropertiesRest).

(** The will properties of lines 156-164. *)
Definition Packet_WillProperties (wp : WillProperties) : PacketProperties :=
  ({| p_SessionExpiryInterval := None;
      p_AuthMethod := EmptyString;
      p_AuthData := [];
      p_WillDelayInterval := wp_WillDelayInterval wp;
      p_RequestResponseInfo := None;
      p_RequestProblemInfo := None;
      p_ReceiveMaximum := None;
      p_TopicAliasMaximum := None;
      p_MaximumPacketSize := None;
      p_User := ToPacketProperties (wp_User wp) |},
   {| p_PayloadFormat := wp_PayloadFormat wp;
      p_MessageExpiry := wp_MessageExpiry wp;
      p_ContentType := wp_ContentType wp;
      p_ResponseTopic := wp_ResponseTopic wp;
      p_CorrelationData := wp_CorrelationData wp;
      p_ReasonString := EmptyString |}).

(** Lines 119-169. *)
Definition Packet (c : Connect) : PacketConnect :=
  {| pc_UsernameFlag := UsernameFlag c;
     pc_Username := Username c;
     pc_PasswordFlag := PasswordFlag c;
     pc_Password := Password c;
     pc_ClientID := ClientID c;
     pc_CleanStart := CleanStart c;
     pc_KeepAlive := KeepAlive c;
     pc_Properties := option_map Packet_Properties (c_Properties c);
     pc_WillFlag :=
       match c_WillMessage c with Some _ => true | None => false end;
     pc_WillQOS :=
       match c_WillMessage c with Some m => QoS m | None => 0 end;
     pc_WillTopic :=
       match c_WillMessage c with Some m => Topic m | None => EmptyString end;
     pc_WillRetain :=
       match c_WillMessage c with Some m => Retain m | None => false end;
     pc_WillMessage :=
       match c_WillMessage c with Some m => Payload m | None => [] end;
     pc_WillProperties :=
       match c_WillMessage c with
       | Some _ => option_map Packet_WillProperties (c_WillProperties c)
       | None => None
       end |}.

(** *** Auth *)

Record AuthProperties : Type := mkAuthProperties {
  ap_AuthData : list byte;
  ap_AuthMethod : string;
  ap_ReasonString : string;
  ap_User : UserProperties
}.

Record Auth : Type := mkAuth {
  auth_Properties : option AuthProperties;
  auth_ReasonCode : Z
}.

(** Modelled from the spec: the declarations of [packets.Auth] and
    [packets.Disconnect] are not part of the sources; the conversions use
    their properties and their reason code. *)
Record PacketAuth : Type := mkPacketAuth {
  pa_Properties : option PacketProperties;
  pa_ReasonCode : Z
}.

Record PacketDisconnect : Type := mkPacketDisconnect {
  pd_Properties : option PacketProperties;
  pd_ReasonCode : Z
}.

(** [Auth.InitProperties] (lines 232-239 of the second file), on a pointer
    that may be nil. *)
Definition Auth_InitProperties (a : Auth) (p : option PacketProperties)
    : outcome Auth :=
  match p with
  | None => NilDereference a
  | Some pp =>
      Completed
        {| auth_Properties :=
             Some {| ap_AuthMethod := p_AuthMethod (fst pp);
                     ap_AuthData := p_AuthData (fst pp);
                     ap_ReasonString := p_ReasonString (snd pp);
                     ap_User := UserPropertiesFromPacketUser (p_User (fst pp)) |};
           auth_ReasonCode := auth_ReasonCode a |}
  end.

Definition AuthFromPacketAuth (a : PacketAuth) : outcome Auth :=
  Auth_InitProperties
    {| auth_Properties := None; auth_ReasonCode := pa_ReasonCode a |}
    (pa_Properties a).

Definition Auth_Packet_Properties (ap : AuthProperties) : PacketProperties :=
  ({| p_SessionExpiryInterval := None;
      p_AuthMethod := ap_AuthMethod ap;
      p_AuthData := ap_AuthData ap;
      p_WillDelayInterval := None;
      p_RequestResponseInfo := None;
      p_RequestProblemInfo := None;
      p_ReceiveMaximum := None;
      p_TopicAliasMaximum := None;
      p_MaximumPacketSize := None;
      p_User := ToPacketProperties (ap_User ap) |},
   {| p_PayloadFormat := None;
      p_MessageExpiry := None;
      p_ContentType := EmptyString;
      p_ResponseTopic := EmptyString;
      p_CorrelationData := [];
      p_ReasonString := ap_ReasonString ap |}).

Definition Auth_Packet (a : Auth) : PacketAuth :=
  {| pa_ReasonCode := auth_ReasonCode a;
     pa_Properties := option_map Auth_Packet_Properties (auth_Properties a) |}.

Record AuthResponse : Type := mkAuthResponse {
  ar_Properties : option AuthProperties;
  ar_ReasonCode : Z;
  ar_Success : bool
}.

(** Lines 277-286 of the second file; reading [a.Properties.ReasonString]
    through a nil pointer panics before anything is built: [None]. *)
Definition AuthResponseFromPacketAuth (a : PacketAuth) : option AuthResponse :=
  match pa_Properties a with
  | None => None
  | Some pp =>
      Some {| ar_Success := true;
              ar_ReasonCode := pa_ReasonCode a;
              ar_Properties :=
                Some {| ap_AuthData := [];
                        ap_AuthMethod := EmptyString;
                        ap_ReasonString := p_ReasonString (snd pp);
                        ap_User :=
                          UserPropertiesFromPacketUser (p_User (fst pp)) |} |}
  end.

(** Lines 290-299. *)
Definition AuthResponseFromPacketDisconnect (d : PacketDisconnect)
    : option AuthResponse :=
  match pd_Properties d with
  | None => None
  | Some pp =>
      Some {| ar_Success := true;
              ar_ReasonCode := pd_ReasonCode d;
              ar_Properties :=
                Some {| ap_AuthData := [];
                        ap_AuthMethod := EmptyString;
                        ap_ReasonString := p_ReasonString (snd pp);
                        ap_User :=
                          UserPropertiesFromPacketUser (p_User (fst pp)) |} |}
  end.

End Connect.

Arguments mkProperties {PacketUser}.
Arguments p_RequestResponseInfo {PacketUser}.
Arguments p_RequestProblemInfo {PacketUser}.
Arguments mkConnect {UserProperties}.
Arguments c_Properties {UserProperties}.
Arguments RequestResponseInfo {UserProperties}.
Arguments RequestProblemInfo {UserProperties}.
Arguments InitProperties {PacketUser UserProperties}.
Arguments spec_InitProperties {PacketUser UserProperties}.
Arguments spec_RequestResponseInfo {PacketUser}.
Arguments spec_RequestProblemInfo {PacketUser}.
Arguments c_WillMessage {UserProperties}.
Arguments c_WillProperties {UserProperties}.
Arguments pc_WillFlag {PacketUser}.
Arguments pc_WillProperties {PacketUser}.
Arguments pc_Properties {PacketUser}.
Arguments pa_Properties {PacketUser}.
Arguments pa_ReasonCode {PacketUser}.
Arguments pd_Properties {PacketUser}.
Arguments pd_ReasonCode {PacketUser}.
Arguments mkPacketAuth {PacketUser}.
Arguments mkPacketDisconnect {PacketUser}.
Arguments ConnectFromPacketConnect {PacketUser UserProperties}.
Arguments Packet {PacketUser UserProperties}.
Arguments auth_Properties {UserProperties}.
Arguments auth_ReasonCode {UserProperties}.
Arguments mkAuth {UserProperties}.
Arguments mkAuthProperties {UserProperties}.
Arguments ap_AuthData {UserProperties}.
Arguments ap_AuthMethod {UserProperties}.
Arguments ap_ReasonString {UserProperties}.
Arguments ap_User {UserProperties}.
Arguments ar_Properties {UserProperties}.
Arguments ar_ReasonCode {UserProperties}.
Arguments ar_Success {UserProperties}.
Arguments AuthFromPacketAuth {PacketUser UserProperties}.
Arguments Auth_Packet {PacketUser UserProperties}.
Arguments AuthResponseFromPacketAuth {PacketUser UserProperties}.
Arguments AuthResponseFromPacketDisconnect {PacketUser UserProperties}.

(** The two request flags that a conversion leaves in the Connect. *)
Definition request_flags {U : Type} (o : outcome (Connect U))
    : option (bool * bool) :=
  match o with
  | Completed c =>
      match c_Properties c with
      | Some cp => Some (RequestResponseInfo cp, RequestProblemInfo cp)
      | None => None
      end
  | NilDereference _ => None
  end.

(** ** What a Run leaves behind *)

(** An emitter whose [WriteTo] has returned. *)
Definition has_written (em : emitter) : bool :=
  match em with
  | Writing => false
  | _ => true
  end.

Fixpoint n_written (l : list emitter) : nat :=
  match l with
  | [] => 0
  | em :: l' => ((if has_written em then 1 else 0) + n_written l')%nat
  end.

(** A record of the world that is a PINGREQ written to [c]. *)
Definition ping_write (c : Conn) (x : Conn * list byte * option error) : Prop :=
  fst x = (c, PINGREQ).

(** The writes of a Run: [base] is what was written before it. *)
Definition writes_inv (base : list (Conn * list byte * option error))
    (w : World) (f : Frame) : Prop :=
  exists done,
    writes w = base ++ done
    /\ Forall (ping_write (conn f)) done
    /\ length done = n_written (emitters f).

(** The readings of [time.Now()] on line 128 are not the zero Time. *)
Definition clock_nonzero (e : event) : Prop :=
  match e with
  | EvTimer _ now => now <> 0
  | _ => True
  end.

Definition is_PingResp (e : event) : bool :=
  match e with
  | EvPingResp _ => true
  | _ => false
  end.

(** Every error that is in the channel or in the hands of a blocked emitter
    satisfies [Q]. *)
Definition errors_in (Q : error -> Prop) (f : Frame) : Prop :=
  Forall Q (errCh f)
  /\ Forall (fun em => match em with Sending err => Q err | _ => True end)
       (emitters f).

(** The frame of a Run that has just entered its loop (lines 92-98). *)
Definition fresh_frame (c : Conn) (keepAlive : uint16) : Frame :=
  mkFrame c (interval_of keepAlive) 0 time.zero [] [].

(** The errors that Run makes itself. *)
Definition ErrPingRespTimeout : error := errorString "PINGRESP timed out".
Definition ErrSendPingreq (cause : error) : error :=
  Errorf_w "failed to send PINGREQ: " cause.

(** * Properties *)

(** ** The deadline *)

Lemma pingDue_min (p : DefaultPinger) (d : time.Duration) :
  pingDue p d = Z.min (lastPacketSent p) (lastPacketReceived p) + d.
Proof.
  unfold pingDue, time.Before, time.Add.
  destruct (Z.ltb_spec (lastPacketSent p) (lastPacketReceived p)); lia.
Qed.

(** ** The frame along a Run *)

Lemma chan_send_interval i err f : interval (chan_send i err f) = interval f.
Proof. unfold chan_send. by destruct (_ <? _)%nat. Qed.

Lemma chan_send_lastPingSent i err f :
  lastPingSent (chan_send i err f) = lastPingSent f.
Proof. unfold chan_send. by destruct (_ <? _)%nat. Qed.

Lemma goroutines_interval e p w f : interval (goroutines e p w f).2 = interval f.
Proof.
  destruct e; simpl; try done.
  - unfold emitter_WriteTo.
    destruct (emitters f !! i) as [[]|]; try done.
    destruct res; simpl; [apply chan_send_interval | done].
  - unfold emitter_Send.
    destruct (emitters f !! i) as [[]|]; try done. apply chan_send_interval.
Qed.

Lemma goroutines_lastPingSent e p w f :
  lastPingSent (goroutines e p w f).2 = lastPingSent f.
Proof.
  destruct e; simpl; try done.
  - unfold emitter_WriteTo.
    destruct (emitters f !! i) as [[]|]; try done.
    destruct res; simpl; [apply chan_send_lastPingSent | done].
  - unfold emitter_Send.
    destruct (emitters f !! i) as [[]|]; try done. apply chan_send_lastPingSent.
Qed.

Lemma loop_step_interval e p w f :
  match loop_step e p w f with
  | Continue _ _ f' | Exit _ _ _ f' => interval f' = interval f
  end.
Proof.
  destruct e; simpl; try done.
  - unfold tick, tick_with.
    destruct (_ && _); [done |]. by destruct (time.Before _ _).
  - by destruct (errCh f).
  - pose proof (goroutines_interval (EvWriteTo i res) p w f) as H.
    simpl in H. by destruct (emitter_WriteTo i res p w f).
  - pose proof (goroutines_interval (EvSend i) p w f) as H. done.
Qed.

Lemma Run_loop_interval evs : forall p w f r p' w' f',
  Run_loop evs p w f = (r, p', w', Some f') -> interval f' = interval f.
Proof.
  induction evs as [|e evs IH]; intros p w f r p' w' f' H; simpl in H.
  - by inversion H.
  - pose proof (loop_step_interval e p w f) as Hi.
    destruct (loop_step e p w f) as [p1 w1 f1 | x p1 w1 f1].
    + rewrite <- Hi. eauto.
    + inversion H; subst. done.
Qed.

Lemma Run_loop_app evs1 : forall evs2 p w f,
  Run_loop (evs1 ++ evs2) p w f =
  match Run_loop evs1 p w f with
  | (None, p', w', Some f') => Run_loop evs2 p' w' f'
  | r => r
  end.
Proof.
  induction evs1 as [|e evs1 IH]; intros evs2 p w f; simpl; [done |].
  destruct (loop_step e p w f); [apply IH | done].
Qed.

Lemma Run_loop_frame evs : forall p w f r p' w' o,
  Run_loop evs p w f = (r, p', w', o) -> exists f', o = Some f'.
Proof.
  induction evs as [|e evs IH]; intros p w f r p' w' o H; simpl in H.
  - inversion H. eauto.
  - destruct (loop_step e p w f); [eauto | inversion H; eauto].
Qed.

(** A Run that is in its loop went through the entry. *)
Lemma Run_in_loop p0 w0 c K evs p w f :
  Run p0 w0 c K evs = (None, p, w, Some f) ->
  exists c' f0,
    c = Some c' /\ K <> 0 /\ running p0 = false /\
    interval f0 = interval_of K /\
    Run_entry p0 w0 c K = Started (set_running true p0) f0 /\
    Run_loop evs (set_running true p0) w0 f0 = (None, p, w, Some f).
Proof.
  unfold Run, Run_entry.
  destruct (Z.eqb_spec K 0); [done |].
  destruct c as [c'|]; [| done].
  destruct (running p0) eqn:Hr; [done |].
  intros H. exists c'. eexists. repeat split; try done.
Qed.

Lemma Run_app p0 w0 c K evs p w f evs2 :
  Run p0 w0 c K evs = (None, p, w, Some f) ->
  Run p0 w0 c K (evs ++ evs2) = Run_loop evs2 p w f.
Proof.
  intros H. destruct (Run_in_loop _ _ _ _ _ _ _ _ H)
    as (c' & f0 & -> & HK & Hr & Hi & He & Hl).
  unfold Run. rewrite He, Run_loop_app, Hl. done.
Qed.

Lemma Run_interval p0 w0 c K evs p w f :
  Run p0 w0 c K evs = (None, p, w, Some f) -> interval f = K * time.Second.
Proof.
  intros H. destruct (Run_in_loop _ _ _ _ _ _ _ _ H)
    as (c' & f0 & -> & HK & Hr & Hi & He & Hl).
  apply Run_loop_interval in Hl. rewrite Hl, Hi. done.
Qed.

(** ** The timer case *)

(** C1: on a timer tick of a Run with keepalive K > 0, whatever the snapshot
    of the traffic state, the deadline the controller computes is
    min(lastPacketSent, lastPacketReceived) + K seconds: the staler of the
    two stamps anchors it, so a newer lastPacketSent alone does not push it
    out. *)
Theorem C1_pingDue_min_plus_keepalive
    (p0 : DefaultPinger) (w0 : World) (c : option Conn) (K : uint16)
    (evs : list event) (p : DefaultPinger) (w : World) (f : Frame) :
  0 < K ->
  Run p0 w0 c K evs = (None, p, w, Some f) ->
  pingDue p (interval f)
    = Z.min (lastPacketSent p) (lastPacketReceived p) + K * time.Second
  /\ (forall t now,
        tick p w f t now
        = tick_with
            (Z.min (lastPacketSent p) (lastPacketReceived p) + K * time.Second)
            p w f t now)
  /\ (lastPacketReceived p <= lastPacketSent p ->
      pingDue p (interval f) = lastPacketReceived p + K * time.Second).
Proof.
  intros _ H. apply Run_interval in H.
  assert (pingDue p (interval f)
          = Z.min (lastPacketSent p) (lastPacketReceived p) + K * time.Second)
    as Hd by (rewrite pingDue_min, H; done).
  split; [done |]. split.
  - intros t now. unfold tick. by rewrite Hd.
  - intros Hle. rewrite Hd. lia.
Qed.

Lemma C1_pingDue_min_plus_keepalive_witness :
  pingDue (PacketSent 7000000000 (PacketReceived 4000000000 (set_running true NewDefaultPinger)))
          (2 * time.Second)
  = 6000000000.
Proof.
  pose proof (C1_pingDue_min_plus_keepalive NewDefaultPinger (mkWorld [] [])
                (Some 0%nat) 2
                [EvPacketReceived 4000000000; EvPacketSent 7000000000]
                _ _ _ ltac:(lia) eq_refl) as [H _].
  exact H.
Defined.

(** C3: on a timer tick of a Run with K > 0, if lastPingSent is non-zero and
    later than the last PINGRESP stamp, Run returns the PINGRESP-timeout
    error.  The check comes before the deadline is compared: the result is
    the same for every tick time and every lastPacketSent and
    lastPacketReceived, and no emitter is started. *)
Theorem C3_unanswered_ping_times_out
    (p0 : DefaultPinger) (w0 : World) (c : option Conn) (K : uint16)
    (evs : list event) (p : DefaultPinger) (w : World) (f : Frame)
    (t now : time.Time) (rest : list event) :
  0 < K ->
  Run p0 w0 c K evs = (None, p, w, Some f) ->
  lastPingSent f <> 0 ->
  lastPingResponse p < lastPingSent f ->
  forall due,
    tick_with due p w f t now
    = Exit (Return (Some (errorString "PINGRESP timed out"))) p
        (println (debug p) "DefaultPinger PINGRESP timeout" w) f
    /\ Run p0 w0 c K (evs ++ EvTimer t now :: rest)
       = (Some (Return (Some (errorString "PINGRESP timed out"))),
          set_running false p,
          println (debug p) "DefaultPinger PINGRESP timeout" w,
          Some f).
Proof.
  intros _ H Hnz Hlt due.
  assert (forall d, tick_with d p w f t now
          = Exit (Return (Some (errorString "PINGRESP timed out"))) p
              (println (debug p) "DefaultPinger PINGRESP timeout" w) f) as Ht.
  { intros d. unfold tick_with, time.IsZero, time.After.
    destruct (Z.eqb_spec (lastPingSent f) 0); [done |].
    destruct (Z.gtb_spec (lastPingSent f) (lastPingResponse p)); [done | lia]. }
  split; [apply Ht |].
  rewrite (Run_app _ _ _ _ _ _ _ _ _ H). simpl. unfold tick. by rewrite Ht.
Qed.

Lemma C3_unanswered_ping_times_out_witness :
  Run NewDefaultPinger (mkWorld [] []) (Some 0%nat) 1
      ([EvTimer 5000000000 5000000001] ++ EvTimer 6000000001 6000000002 :: [])
  = (Some (Return (Some (errorString "PINGRESP timed out"))),
     NewDefaultPinger, mkWorld [] [],
     Some (mkFrame 0%nat 1000000000 1000000000 5000000001 [] [Writing])).
Proof.
  pose proof (C3_unanswered_ping_times_out NewDefaultPinger (mkWorld [] [])
                (Some 0%nat) 1 [EvTimer 5000000000 5000000001]
                (set_running true NewDefaultPinger) (mkWorld [] [])
                (mkFrame 0%nat 1000000000 1000000000 5000000001 [] [Writing])
                6000000001 6000000002 []
                ltac:(lia) eq_refl ltac:(vm_compute; congruence)
                ltac:(vm_compute; reflexivity) 0)
    as [_ H].
  exact H.
Defined.

(** ** The entry checks *)

(** C5: with keepAlive = 0, for every transport (nil or not) and whatever
    the context does, Run returns nil at once: it takes no event, starts no
    emitter, writes nothing to a transport and leaves the pinger, stamps and
    flag, as it was. *)
Theorem C5_keepalive_zero_is_noop
    (p : DefaultPinger) (w : World) (c : option Conn) (evs : list event) :
  exists w',
    Run p w c 0 evs = (Some (Return None), p, w', None)
    /\ writes w' = writes w.
Proof.
  unfold Run, Run_entry. simpl.
  eexists. split; [reflexivity |]. by destruct (debug p).
Qed.

(** C6: with a nil transport and keepAlive K > 0, Run returns the error
    "conn is nil"; the pinger and the world are untouched, so the running
    flag is never set and nothing is written. *)
Theorem C6_nil_transport_rejected
    (p : DefaultPinger) (w : World) (K : uint16) (evs : list event) :
  0 < K ->
  Run p w None K evs = (Some (Return (Some (errorString "conn is nil"))), p, w, None)
  /\ Run_entry p w None K = Early (Some (errorString "conn is nil")) w.
Proof.
  intros HK. unfold Run, Run_entry.
  destruct (Z.eqb_spec K 0); [lia | done].
Qed.

Lemma C6_nil_transport_rejected_witness :
  Run NewDefaultPinger (mkWorld [] []) None 30 [EvTimer 1 2; EvCtxDone]
  = (Some (Return (Some (errorString "conn is nil"))),
     NewDefaultPinger, mkWorld [] [], None).
Proof.
  exact (proj1 (C6_nil_transport_rejected NewDefaultPinger (mkWorld [] []) 30
                  [EvTimer 1 2; EvCtxDone] ltac:(lia))).
Defined.

(** C10: the keepAlive == 0 check comes first: Run with a nil transport and
    keepAlive = 0 returns nil, not the error "conn is nil". *)
Theorem C10_zero_keepalive_before_nil_check
    (p : DefaultPinger) (w : World) (evs : list event) :
  (Run p w None 0 evs).1.1.1 = Some (Return None)
  /\ (Run p w None 0 evs).1.1.1
     <> Some (Return (Some (errorString "conn is nil")))
  /\ exists w', Run_entry p w None 0 = Early None w'.
Proof.
  unfold Run, Run_entry. simpl. repeat split; [done |]. eauto.
Qed.

(** ** Dispatch *)

(** C9, as stated, fails: the stamp recorded at dispatch is the reading of
    [time.Now()] on line 128, not the value [t] received from the timer.
    Here the timer delivers t = 5 s and the clock reads 7 ns later. *)
Lemma C9_lastPingSent_is_not_the_tick_time :
  let p := NewDefaultPinger in
  let w := mkWorld [] [] in
  let f := mkFrame 0%nat (interval_of 1) 0 time.zero [] [] in
  let t := 5000000000 in
  let now := 5000000007 in
  time.Before t (pingDue p (interval f)) = false
  /\ tick p w f t now
     = Continue p w (mkFrame 0%nat 1000000000 1000000000 now [] [Writing])
  /\ lastPingSent (mkFrame 0%nat 1000000000 1000000000 now [] [Writing]) <> t.
Proof. vm_compute. repeat split; congruence. Qed.

(** C9, amended: when a timer tick of a Run with K > 0 finds no unanswered
    ping and the ping due (t is not before the deadline), the controller
    records lastPingSent = now, the reading of the clock taken at that point,
    starts one emitter and rearms the timer for K seconds.  No write has
    completed then, and no later step of an emitter changes lastPingSent. *)
Theorem C9_lastPingSent_set_at_dispatch
    (p0 : DefaultPinger) (w0 : World) (c : option Conn) (K : uint16)
    (evs : list event) (p : DefaultPinger) (w : World) (f : Frame)
    (t now : time.Time) :
  0 < K ->
  Run p0 w0 c K evs = (None, p, w, Some f) ->
  lastPingSent f = 0 \/ lastPingSent f <= lastPingResponse p ->
  pingDue p (interval f) <= t ->
  exists f',
    tick p w f t now = Continue p w f'
    /\ lastPingSent f' = now
    /\ emitters f' = emitters f ++ [Writing]
    /\ timer f' = K * time.Second
    /\ errCh f' = errCh f
    /\ forall e q w1, lastPingSent (goroutines e q w1 f').2 = now.
Proof.
  intros _ H Hno Hdue. apply Run_interval in H.
  eexists. split.
  - unfold tick, tick_with, time.IsZero, time.After, time.Before.
    replace (negb (lastPingSent f =? 0)
             && (lastPingSent f >? lastPingResponse p)) with false.
    2:{ symmetry. apply andb_false_iff.
        destruct Hno as [-> | Hle]; [by left | right].
        destruct (Z.gtb_spec (lastPingSent f) (lastPingResponse p)); [lia | done]. }
    destruct (Z.ltb_spec t (pingDue p (interval f))); [lia | reflexivity].
  - simpl. repeat split; try done.
    intros e q w1. by rewrite goroutines_lastPingSent.
Qed.

Lemma C9_lastPingSent_set_at_dispatch_witness :
  exists f',
    tick (set_running true NewDefaultPinger) (mkWorld [] [])
         (mkFrame 0%nat 1000000000 0 0 [] []) 5000000000 5000000007
    = Continue (set_running true NewDefaultPinger) (mkWorld [] []) f'
    /\ lastPingSent f' = 5000000007.
Proof.
  destruct (C9_lastPingSent_set_at_dispatch NewDefaultPinger (mkWorld [] [])
              (Some 0%nat) 1 []
              (set_running true NewDefaultPinger) (mkWorld [] [])
              (mkFrame 0%nat 1000000000 0 0 [] []) 5000000000 5000000007
              ltac:(lia) eq_refl ltac:(left; reflexivity)
              ltac:(vm_compute; congruence))
    as (f' & H1 & H2 & _).
  exists f'. split; assumption.
Defined.

(** ** The traffic stamps *)

Lemma do_call_stamps last c p :
  stamps_ok last p -> 0 < snd c -> last <= snd c ->
  stamps_ok (snd c) (do_call c p) /\ stamps_le p (do_call c p).
Proof.
  unfold stamps_ok, stamps_le, do_call.
  intros (Hs & Hr & Hp) H0 Hl.
  destruct c as [[] now]; simpl in *; lia.
Qed.

Lemma stamps_le_trans p q r : stamps_le p q -> stamps_le q r -> stamps_le p r.
Proof. unfold stamps_le. lia. Qed.

Lemma do_calls_stamps cs : forall last p,
  stamps_ok last p -> clock_ok last cs ->
  stamps_le p (do_calls cs p)
  /\ exists last', last <= last' /\ stamps_ok last' (do_calls cs p).
Proof.
  unfold do_calls.
  induction cs as [|c cs IH]; intros last p Hp Hc; simpl in *.
  - split; [unfold stamps_le; lia |]. exists last. split; [lia | done].
  - destruct Hc as (H0 & Hl & Hc).
    destruct (do_call_stamps last c p Hp H0 Hl) as [Hok Hle].
    destruct (IH _ _ Hok Hc) as (Hle' & last' & Hl' & Hok').
    split; [by eapply stamps_le_trans |].
    exists last'. split; [lia | done].
Qed.

Lemma do_calls_clock cs1 : forall last p cs2,
  stamps_ok last p -> clock_ok last (cs1 ++ cs2) ->
  exists last', stamps_ok last' (do_calls cs1 p) /\ clock_ok last' cs2.
Proof.
  unfold do_calls.
  induction cs1 as [|c cs1 IH]; intros last p cs2 Hp Hc; simpl in *.
  - eauto.
  - destruct Hc as (H0 & Hl & Hc).
    destruct (do_call_stamps last c p Hp H0 Hl) as [Hok _].
    eauto.
Qed.

Lemma sys_step_view ev s :
  (acts s !! actor ev = None /\ sys_step ev s = s)
  \/ (exists a p' w' a',
        acts s !! actor ev = Some a
        /\ act_step ev (pinger s) (world s) a = (p', w', a')
        /\ sys_step ev s = mkSystem p' w' (<[actor ev := a']> (acts s))).
Proof.
  unfold sys_step. destruct (acts s !! actor ev) as [a|]; [| by left].
  right. destruct (act_step ev (pinger s) (world s) a) as [[p' w'] a'] eqn:E.
  exists a, p', w', a'. by repeat split.
Qed.

Lemma loop_step_pinger e p w f :
  match loop_step e p w f with
  | Continue p' _ _ | Exit _ p' _ _ => p' = notify e p
  end.
Proof.
  destruct e; simpl; try done.
  - unfold tick, tick_with.
    destruct (_ && _); [done |]. by destruct (time.Before _ _).
  - by destruct (errCh f).
  - by destruct (emitter_WriteTo i res p w f).
Qed.

Lemma notify_stamps e p :
  stamps_eq (notify e p) p
  \/ exists c, e = event_of c /\ notify e p = do_call c p.
Proof.
  destruct e; simpl; try (by left).
  - right. by exists (CallPacketSent, now).
  - right. by exists (CallPacketReceived, now).
  - right. by exists (CallPingResp, now).
Qed.

(** The stamps are written by the three notifications and by nothing else:
    a step of a Run or of an emitter leaves them as they are. *)
Lemma sys_step_stamps ev s :
  stamps_eq (pinger (sys_step ev s)) (pinger s)
  \/ exists a c,
       ev = Ev a (event_of c)
       /\ pinger (sys_step ev s) = do_call c (pinger s).
Proof.
  destruct (sys_step_view ev s) as [[_ ->] | (a & p' & w' & a' & _ & Hst & ->)];
    [by left |].
  simpl. destruct ev as [n | n e | n]; simpl in Hst.
  - left. unfold act_invoke, Run_entry in Hst.
    destruct (a_phase a); try (by inversion Hst).
    destruct (a_keepAlive a =? 0); [by inversion Hst |].
    destruct (a_conn a); [| by inversion Hst].
    destruct (running (pinger s)); by inversion Hst.
  - assert (p' = notify e (pinger s)) as ->.
    { unfold act_event in Hst.
      destruct (a_frame a) as [f|]; [| by inversion Hst].
      destruct (a_phase a).
      2:{ pose proof (loop_step_pinger e (pinger s) (world s) f) as H.
          destruct (loop_step e (pinger s) (world s) f);
            inversion Hst; by subst. }
      all: destruct (goroutines e (pinger s) (world s) f); by inversion Hst. }
    destruct (notify_stamps e (pinger s)) as [H | (c & -> & H)]; [by left |].
    right. by exists n, c.
  - left. unfold act_defer in Hst.
    destruct (a_phase a); by inversion Hst.
Qed.

(** C8: for every sequence of PacketSent, PacketReceived and PingResp calls,
    in the order in which they take the mutex and with the readings of a
    clock that does not go back, each of the three stamps is non-decreasing:
    after any prefix of the calls each stamp is at most what it is after the
    whole sequence, and a stamp that is non-zero stays non-zero.  No other
    step of the system, of a Run or of an emitter, writes a stamp. *)
Theorem C8_stamps_monotone
    (last : time.Time) (p : DefaultPinger)
    (cs1 cs2 : list (notification * time.Time)) :
  stamps_ok last p ->
  clock_ok last (cs1 ++ cs2) ->
  stamps_le (do_calls cs1 p) (do_calls (cs1 ++ cs2) p)
  /\ stamps_stay_set (do_calls cs1 p) (do_calls (cs1 ++ cs2) p)
  /\ (forall ev s,
        stamps_eq (pinger (sys_step ev s)) (pinger s)
        \/ exists a c,
             ev = Ev a (event_of c)
             /\ pinger (sys_step ev s) = do_call c (pinger s)).
Proof.
  intros Hp Hc.
  destruct (do_calls_clock cs1 last p cs2 Hp Hc) as (last' & Hok & Hc2).
  destruct (do_calls_stamps cs2 last' _ Hok Hc2) as [Hle _].
  unfold do_calls in *. rewrite fold_left_app.
  split; [done |]. split; [| apply sys_step_stamps].
  unfold stamps_le, stamps_stay_set, stamps_ok in *. lia.
Qed.

Lemma C8_stamps_monotone_witness :
  stamps_le
    (do_calls [(CallPacketSent, 10); (CallPingResp, 12)] NewDefaultPinger)
    (do_calls ([(CallPacketSent, 10); (CallPingResp, 12)]
               ++ [(CallPacketSent, 12); (CallPacketReceived, 15)])
       NewDefaultPinger).
Proof.
  refine (proj1 (C8_stamps_monotone 0 NewDefaultPinger
                   [(CallPacketSent, 10); (CallPingResp, 12)]
                   [(CallPacketSent, 12); (CallPacketReceived, 15)] _ _)).
  - vm_compute. repeat split; congruence.
  - simpl. lia.
Defined.

(** ** Connect.InitProperties *)

(** Where the code and the specification agree: when [RequestResponseInfo]
    is absent from the packet, both flags are as specified. *)
Lemma InitProperties_without_RequestResponseInfo
    {PU U : Type} (conv : list PU -> U) (c : Connect U) (p : Properties PU) :
  p_RequestResponseInfo p = None ->
  InitProperties conv c p = spec_InitProperties conv c p.
Proof.
  intros H. unfold InitProperties, spec_InitProperties,
    spec_RequestResponseInfo, spec_RequestProblemInfo.
  rewrite H. by destruct (p_RequestProblemInfo p).
Qed.

(** [RequestProblemInfo] is driven by its own field whenever the function
    completes. *)
Lemma InitProperties_RequestProblemInfo
    {PU U : Type} (conv : list PU -> U) (c : Connect U) (p : Properties PU)
    (flags : bool * bool) :
  request_flags (InitProperties conv c p) = Some flags ->
  flags.2 = spec_RequestProblemInfo p.
Proof.
  unfold InitProperties, spec_RequestProblemInfo.
  destruct (p_RequestResponseInfo p), (p_RequestProblemInfo p);
    simpl; intros H; inversion H; done.
Qed.

(** C2 does not hold of the code: [RequestResponseInfo] is read through the
    pointer [p.RequestProblemInfo].  With RequestResponseInfo = 1 and
    RequestProblemInfo = 0 in the packet the code leaves
    RequestResponseInfo false where its own field says true; with
    RequestProblemInfo absent the code panics on the nil pointer. *)
Theorem C2_InitProperties_cross_wired :
  let conv := fun _ : list unit => tt in
  let c := mkConnect [] EmptyString EmptyString None None None 0 false false false in
  let p := mkProperties None EmptyString [] None (Some 1) (Some 0) None None None [] in
  let p' := mkProperties None EmptyString [] None (Some 1) None None None None [] in
  request_flags (InitProperties conv c p) = Some (false, false)
  /\ request_flags (spec_InitProperties conv c p) = Some (true, false)
  /\ (exists c', InitProperties conv c p' = NilDereference c')
  /\ request_flags (spec_InitProperties conv c p') = Some (true, true).
Proof. simpl. repeat split. eauto. Qed.

(** ** The running flag *)

Lemma weight_le_n_holding l : forall i a,
  l !! i = Some a -> (weight a <= n_holding l)%nat.
Proof.
  induction l as [|x l IH]; intros [|i] a H; simpl in *; try done.
  - inversion H; subst. lia.
  - specialize (IH _ _ H). lia.
Qed.

Lemma n_holding_insert l : forall i a a',
  l !! i = Some a ->
  (n_holding (<[i:=a']> l) + weight a = n_holding l + weight a')%nat.
Proof.
  induction l as [|x l IH]; intros [|i] a a' H; simpl in *; try done.
  - inversion H; subst. lia.
  - specialize (IH _ _ a' H). lia.
Qed.

Lemma n_holding_two l : forall i j a b,
  i <> j -> l !! i = Some a -> l !! j = Some b ->
  (weight a + weight b <= n_holding l)%nat.
Proof.
  induction l as [|x l IH]; intros [|i] [|j] a b Hne Ha Hb; simpl in *;
    try done.
  - inversion Ha; subst. pose proof (weight_le_n_holding _ _ _ Hb). lia.
  - inversion Hb; subst. pose proof (weight_le_n_holding _ _ _ Ha). lia.
  - assert (i <> j) as Hne' by congruence.
    specialize (IH _ _ _ _ Hne' Ha Hb). lia.
Qed.

Lemma notify_running e p : running (notify e p) = running p.
Proof. by destruct e. Qed.

Lemma loop_step_running e p w f :
  match loop_step e p w f with
  | Continue p' _ _ | Exit _ p' _ _ => running p' = running p
  end.
Proof.
  destruct e; simpl; try done.
  - unfold tick, tick_with.
    destruct (_ && _); [done |]. by destruct (time.Before _ _).
  - by destruct (errCh f).
  - by destruct (emitter_WriteTo i res p w f).
Qed.

(** What one step of an activity does to the flag and to its phase: nothing
    to the flag; or it is the entry that takes the flag; or it is the
    deferred call that gives it back. *)
Lemma act_step_cases ev p w a p' w' a' :
  act_step ev p w a = (p', w', a') ->
  (running p' = running p /\ weight a' = weight a
   /\ (a_phase a <> Called -> a_phase a' <> Called))
  \/ (exists c,
        ev = Invoke (actor ev) /\ a_phase a = Called /\ a_keepAlive a <> 0
        /\ a_conn a = Some c /\ running p = false /\ running p' = true
        /\ a_phase a' = InLoop)
  \/ (exists r,
        ev = Defer (actor ev) /\ a_phase a = Unwinding r
        /\ running p' = false /\ a_phase a' = Finished r).
Proof.
  destruct ev as [n | n e | n]; simpl.
  - unfold act_invoke, Run_entry.
    destruct (a_phase a) eqn:Hph;
      try (intros H; inversion H; subst; left; rewrite ?Hph; by auto).
    destruct (Z.eqb_spec (a_keepAlive a) 0).
    { intros H; inversion H; subst. left. unfold weight, holds. simpl.
      rewrite Hph. by auto. }
    destruct (a_conn a) as [c|] eqn:Hc.
    2:{ intros H; inversion H; subst. left. unfold weight, holds. simpl.
        rewrite Hph. by auto. }
    destruct (running p) eqn:Hr.
    { intros H; inversion H; subst. left. unfold weight, holds. simpl.
      rewrite Hph. by auto. }
    intros H; inversion H; subst. right; left. exists c. by auto.
  - unfold act_event.
    destruct (a_frame a) as [f|] eqn:Hf.
    2:{ intros H; inversion H; subst. left. rewrite notify_running. by auto. }
    destruct (a_phase a) eqn:Hph.
    2:{ pose proof (loop_step_running e p w f) as Hr.
        destruct (loop_step e p w f); intros H; inversion H; subst; left;
          unfold weight, holds; simpl; rewrite ?Hph; by auto. }
    all: destruct (goroutines e p w f); intros H; inversion H; subst; left;
      rewrite notify_running; unfold weight, holds; simpl; rewrite Hph;
      by auto.
  - unfold act_defer.
    destruct (a_phase a) eqn:Hph;
      try (intros H; inversion H; subst; left; rewrite ?Hph; by auto).
    intros H; inversion H; subst. right; right. exists r. by auto.
Qed.

Lemma flag_inv_step ev s : flag_inv s -> flag_inv (sys_step ev s).
Proof.
  unfold flag_inv. intros Hinv.
  destruct (sys_step_view ev s) as [[_ ->] | (a & p' & w' & a' & Ha & Hst & ->)];
    [done |].
  simpl.
  pose proof (n_holding_insert _ _ _ a' Ha) as Hins.
  pose proof (weight_le_n_holding _ _ _ Ha) as Hle.
  destruct (act_step_cases _ _ _ _ _ _ _ Hst)
    as [(Hr & Hw & _) | [(c & _ & Hph & _ & _ & Hr & Hr' & Hph')
                        | (r & _ & Hph & Hr' & Hph')]].
  - rewrite Hr. lia.
  - rewrite Hr'. rewrite Hr in Hinv.
    unfold weight, holds in *. rewrite Hph in *. rewrite Hph' in *. lia.
  - rewrite Hr'. unfold weight, holds in *. rewrite Hph in *. rewrite Hph' in *.
    destruct (running (pinger s)); lia.
Qed.

Lemma flag_inv_exec tr : forall s, flag_inv s -> flag_inv (sys_exec tr s).
Proof.
  induction tr as [|ev tr IH]; intros s H; simpl; [done |].
  by apply IH, flag_inv_step.
Qed.

Lemma flag_inv_init p w calls : flag_inv (sys_init p w calls).
Proof.
  unfold flag_inv, sys_init. simpl.
  induction calls as [|c calls IH]; simpl; [done |]. by rewrite IH.
Qed.

(** The account of one activity over one step: turning the flag on is its
    entry, turning it off is its deferred call, and the two balance with
    its holding the flag. *)
Lemma step_account a ev s act :
  flag_inv s ->
  acts s !! a = Some act ->
  exists act',
    acts (sys_step ev s) !! a = Some act'
    /\ (Nat.b2n (sets_flag a ev s) + weight act
        = Nat.b2n (clears_flag a ev s) + weight act')%nat
    /\ (sets_flag a ev s = true ->
        a_phase act = Called /\ a_phase act' = InLoop)
    /\ (a_phase act <> Called -> a_phase act' <> Called).
Proof.
  intros Hinv Ha. unfold sets_flag, clears_flag.
  destruct (Nat.eqb_spec (actor ev) a) as [Heq | Hne].
  - subst a.
    destruct (sys_step_view ev s)
      as [[Hn _] | (a0 & p' & w' & a' & Ha0 & Hst & ->)]; [congruence |].
    rewrite Ha in Ha0. inversion Ha0; subst a0. simpl.
    exists a'. split.
    { apply list_lookup_insert_eq. by eapply lookup_lt_Some. }
    pose proof (weight_le_n_holding _ _ _ Ha) as Hle.
    unfold flag_inv in Hinv.
    destruct (act_step_cases _ _ _ _ _ _ _ Hst)
      as [(Hr & Hw & Hc) | [(c & _ & Hph & _ & _ & Hr & Hr' & Hph')
                           | (r & _ & Hph & Hr' & Hph')]].
    + rewrite Hr, Hw. destruct (running (pinger s)); simpl; by auto.
    + rewrite Hr, Hr'. unfold weight, holds. rewrite Hph, Hph'. simpl.
      repeat split; by auto.
    + rewrite Hr'. unfold weight, holds in *. rewrite Hph in *. rewrite Hph'.
      destruct (running (pinger s)); simpl; [| lia].
      repeat split; by auto.
  - exists act. simpl. repeat split; try done.
    destruct (sys_step_view ev s)
      as [[_ ->] | (a0 & p' & w' & a' & Ha0 & Hst & ->)]; [done |].
    simpl. by rewrite list_lookup_insert_ne.
Qed.

Lemma count_flag_steps a tr : forall s act act',
  flag_inv s ->
  acts s !! a = Some act ->
  acts (sys_exec tr s) !! a = Some act' ->
  (count_steps (sets_flag a) tr s + weight act
   = count_steps (clears_flag a) tr s + weight act')%nat
  /\ (a_phase act <> Called -> count_steps (sets_flag a) tr s = 0%nat)
  /\ (count_steps (sets_flag a) tr s <= 1)%nat.
Proof.
  induction tr as [|ev tr IH]; intros s act act' Hinv Ha Ha'; simpl in *.
  - rewrite Ha in Ha'. inversion Ha'; subst. repeat split; lia.
  - destruct (step_account a ev s act Hinv Ha) as (act1 & Ha1 & Hbal & Hset & Hc).
    destruct (IH _ _ _ (flag_inv_step ev s Hinv) Ha1 Ha') as (Hbal' & Hz & Hle).
    destruct (sets_flag a ev s) eqn:Hs.
    + destruct (Hset eq_refl) as [Hph Hph1].
      assert (count_steps (sets_flag a) tr (sys_step ev s) = 0%nat) as Hz'
        by (apply Hz; congruence).
      destruct (clears_flag a ev s); simpl in *;
        (repeat split; [lia | congruence | lia]).
    + destruct (clears_flag a ev s); simpl in *;
        (repeat split; [lia | | lia]); intros Hnc; apply Hz; by apply Hc.
Qed.

Lemma sys_step_length ev s : length (acts (sys_step ev s)) = length (acts s).
Proof.
  destruct (sys_step_view ev s) as [[_ ->] | (a & p' & w' & a' & _ & _ & ->)];
    [done |].
  simpl. apply length_insert.
Qed.

Lemma sys_exec_length tr : forall s,
  length (acts (sys_exec tr s)) = length (acts s).
Proof.
  induction tr as [|ev tr IH]; intros s; simpl; [done |].
  by rewrite IH, sys_step_length.
Qed.

Lemma sys_init_lookup p w calls a act :
  acts (sys_init p w calls) !! a = Some act ->
  a_phase act = Called /\ weight act = 0%nat.
Proof.
  unfold sys_init. simpl. rewrite list_lookup_fmap.
  destruct (calls !! a); simpl; intros H; inversion H; done.
Qed.

Lemma one_holder s i j a b :
  flag_inv s ->
  acts s !! i = Some a -> acts s !! j = Some b ->
  holds a = true -> holds b = true -> i = j.
Proof.
  unfold flag_inv. intros Hinv Ha Hb Hha Hhb.
  destruct (decide (i = j)) as [| Hne]; [done |].
  pose proof (n_holding_two _ _ _ _ _ Hne Ha Hb) as H.
  unfold weight in H. rewrite Hha, Hhb in H.
  destruct (running (pinger s)); lia.
Qed.

(** The flag is turned on by the entry of a call that passes the three
    checks, and by nothing else. *)
Lemma sets_flag_iff a ev s :
  sets_flag a ev s = true <->
  ev = Invoke a
  /\ exists act c,
       acts s !! a = Some act /\ a_phase act = Called
       /\ a_keepAlive act <> 0 /\ a_conn act = Some c
       /\ running (pinger s) = false.
Proof.
  unfold sets_flag. split.
  - intros H. apply andb_true_iff in H as [H Hr'].
    apply andb_true_iff in H as [Ha Hr].
    apply Nat.eqb_eq in Ha. subst a.
    destruct (sys_step_view ev s)
      as [[_ E] | (a0 & p' & w' & a' & Ha0 & Hst & E)]; rewrite E in Hr'.
    { destruct (running (pinger s)); done. }
    simpl in Hr'.
    destruct (act_step_cases _ _ _ _ _ _ _ Hst)
      as [(Hq & _) | [(c & Hev & Hph & HK & Hc & Hq & _) | (r & _ & _ & Hq & _)]].
    + rewrite Hq in Hr'. destruct (running (pinger s)); done.
    + split; [done |]. exists a0, c. done.
    + congruence.
  - intros (-> & act & c & Ha & Hph & HK & Hc & Hr).
    unfold sys_step. simpl. rewrite Ha. simpl.
    unfold act_invoke, Run_entry. rewrite Hph, Hc, Hr.
    destruct (Z.eqb_spec (a_keepAlive act) 0); [done |].
    simpl. by rewrite Nat.eqb_refl.
Qed.

(** The flag is turned off by the deferred call of the activity that left
    its loop, however it left, and by nothing else. *)
Lemma clears_flag_iff a ev s :
  flag_inv s ->
  clears_flag a ev s = true <->
  ev = Defer a
  /\ exists act r, acts s !! a = Some act /\ a_phase act = Unwinding r.
Proof.
  intros Hinv. unfold clears_flag. split.
  - intros H. apply andb_true_iff in H as [H Hr'].
    apply andb_true_iff in H as [Ha Hr].
    apply Nat.eqb_eq in Ha. subst a.
    destruct (sys_step_view ev s)
      as [[_ E] | (a0 & p' & w' & a' & Ha0 & Hst & E)]; rewrite E in Hr'.
    { destruct (running (pinger s)); done. }
    simpl in Hr'.
    destruct (act_step_cases _ _ _ _ _ _ _ Hst)
      as [(Hq & _) | [(c & _ & _ & _ & _ & _ & Hq & _) | (r & Hev & Hph & _)]].
    + rewrite Hq in Hr'. destruct (running (pinger s)); done.
    + rewrite Hq in Hr'. done.
    + split; [done |]. exists a0, r. done.
  - intros (-> & act & r & Ha & Hph).
    pose proof (weight_le_n_holding _ _ _ Ha) as Hle.
    unfold flag_inv in Hinv. unfold weight, holds in Hle. rewrite Hph in Hle.
    unfold sys_step. simpl. rewrite Ha. simpl.
    unfold act_defer. rewrite Hph. simpl. rewrite Nat.eqb_refl.
    destruct (running (pinger s)); [done | lia].
Qed.

(** A call that finds the flag on is turned away at its entry, and changes
    nothing but its own state (and, with keepAlive = 0, the log): with
    keepAlive = 0 it returns nil, with a nil transport "conn is nil", and
    past these two checks "Run() already in progress". *)
Lemma second_Run_rejected s b act :
  acts s !! b = Some act -> a_phase act = Called ->
  running (pinger s) = true ->
  exists r w',
    sys_step (Invoke b) s
    = mkSystem (pinger s) w' (<[b := set_phase (Finished (Return r)) act]> (acts s))
    /\ writes w' = writes (world s)
    /\ (a_keepAlive act <> 0 -> a_conn act <> None ->
        r = Some (errorString "Run() already in progress") /\ w' = world s).
Proof.
  intros Ha Hph Hr. unfold sys_step. simpl. rewrite Ha.
  unfold act_step, act_invoke, Run_entry. rewrite Hph, Hr.
  destruct (Z.eqb_spec (a_keepAlive act) 0).
  { do 2 eexists. split; [reflexivity |]. split; [| done].
    by destruct (debug (pinger s)). }
  destruct (a_conn act); do 2 eexists; (split; [reflexivity |]); done.
Qed.

(** C4: in every interleaving of any number of Run calls on one pinger, with
    their emitters and the notifications of the client: the flag is on
    exactly when one activity holds it and no two activities hold it; a step
    turns it on exactly when it is the entry of a call that passes the
    checks (keepAlive not 0, transport not nil, flag off); a step turns it
    off exactly when it is the deferred call of an activity that left its
    loop, by return, error or panic; each activity turns it on at most once
    and off as often as on, less one while it holds it; and a call made
    while the flag is on ends at its entry, with "Run() already in progress"
    once past the keepAlive and transport checks, and changes neither the
    pinger, nor what was written, nor another activity. *)
Theorem C4_RunningFlag_invariant
    (p : DefaultPinger) (w : World) (calls : list (option Conn * uint16))
    (tr : list sys_event) :
  let s := sys_exec tr (sys_init p w calls) in
  flag_inv s
  /\ (n_holding (acts s) <= 1)%nat
  /\ (forall i j a b,
        acts s !! i = Some a -> acts s !! j = Some b ->
        holds a = true -> holds b = true -> i = j)
  /\ (forall a ev,
        sets_flag a ev s = true <->
        ev = Invoke a
        /\ exists act c,
             acts s !! a = Some act /\ a_phase act = Called
             /\ a_keepAlive act <> 0 /\ a_conn act = Some c
             /\ running (pinger s) = false)
  /\ (forall a ev,
        clears_flag a ev s = true <->
        ev = Defer a
        /\ exists act r, acts s !! a = Some act /\ a_phase act = Unwinding r)
  /\ (forall a act,
        acts s !! a = Some act ->
        (count_steps (sets_flag a) tr (sys_init p w calls) <= 1)%nat
        /\ count_steps (sets_flag a) tr (sys_init p w calls)
           = (count_steps (clears_flag a) tr (sys_init p w calls)
              + weight act)%nat)
  /\ (forall b act,
        acts s !! b = Some act -> a_phase act = Called ->
        running (pinger s) = true ->
        exists r w',
          sys_step (Invoke b) s
          = mkSystem (pinger s) w'
              (<[b := set_phase (Finished (Return r)) act]> (acts s))
          /\ writes w' = writes (world s)
          /\ (a_keepAlive act <> 0 -> a_conn act <> None ->
              r = Some (errorString "Run() already in progress")
              /\ w' = world s)).
Proof.
  intros s.
  assert (flag_inv s) as Hinv by apply flag_inv_exec, flag_inv_init.
  split; [done |]. split.
  { unfold flag_inv in Hinv. rewrite Hinv. destruct (running (pinger s)); lia. }
  split; [intros i j a b; by apply one_holder |].
  split; [intros a ev; apply sets_flag_iff |].
  split; [intros a ev; by apply clears_flag_iff |].
  split; [| intros b act; apply second_Run_rejected].
  intros a act Ha.
  assert (is_Some (acts (sys_init p w calls) !! a)) as [act0 Ha0].
  { apply lookup_lt_is_Some. rewrite <- (sys_exec_length tr).
    by eapply lookup_lt_Some. }
  destruct (sys_init_lookup _ _ _ _ _ Ha0) as [_ Hw0].
  destruct (count_flag_steps a tr _ _ _ (flag_inv_init p w calls) Ha0 Ha)
    as (Hbal & _ & Hle).
  split; [done | lia].
Qed.

Lemma C4_RunningFlag_invariant_witness :
  let s := sys_exec [Invoke 0; Invoke 1; Ev 0 EvCtxDone; Defer 0]%nat
             (sys_init NewDefaultPinger (mkWorld [] [])
                [(Some 0%nat, 10); (Some 0%nat, 10)]) in
  flag_inv s
  /\ a_phase <$> acts s
     = [Finished (Return None);
        Finished (Return (Some (errorString "Run() already in progress")))].
Proof.
  split; [| reflexivity].
  exact (proj1 (C4_RunningFlag_invariant NewDefaultPinger (mkWorld [] [])
                  [(Some 0%nat, 10); (Some 0%nat, 10)]
                  [Invoke 0; Invoke 1; Ev 0 EvCtxDone; Defer 0]%nat)).
Defined.

(** ** The error channel *)

Lemma chan_send_empty i err f :
  errCh f = [] ->
  chan_send i err f
  = set_emitters (<[i := Exited]> (emitters f)) (set_errCh [err] f).
Proof. unfold chan_send. intros ->. reflexivity. Qed.

Lemma chan_send_full i err f x :
  errCh f = [x] -> errCh (chan_send i err f) = [x].
Proof. unfold chan_send. intros H. rewrite H. simpl. done. Qed.

Lemma goroutines_no_pending e p w f :
  is_failure e = false -> no_pending f -> no_pending (goroutines e p w f).2.
Proof.
  unfold no_pending. intros He [Hch Hem].
  destruct e; simpl in *; try done.
  - destruct res; [done |]. unfold emitter_WriteTo.
    destruct (emitters f !! i) as [[]|]; simpl; try done.
    split; [done |]. by apply Forall_insert.
  - unfold emitter_Send.
    destruct (emitters f !! i) as [[]|] eqn:Hi; simpl; try done.
    eapply Forall_lookup_1 in Hem; [| exact Hi]. done.
Qed.

Lemma loop_step_no_pending e p w f :
  is_failure e = false -> no_pending f ->
  match loop_step e p w f with
  | Continue _ _ f' | Exit _ _ _ f' => no_pending f'
  end.
Proof.
  intros He Hf.
  destruct e; simpl; try done.
  - unfold tick, tick_with.
    destruct (_ && _); [done |]. destruct (time.Before _ _); [done |].
    destruct Hf as [Hch Hem]. split; [done |]. simpl.
    apply Forall_app. split; [done |]. by constructor.
  - destruct Hf as [Hch Hem]. by rewrite Hch.
  - pose proof (goroutines_no_pending (EvWriteTo i res) p w f He Hf) as H.
    simpl in H. by destruct (emitter_WriteTo i res p w f).
  - exact (goroutines_no_pending (EvSend i) p w f He Hf).
Qed.

Lemma Run_loop_no_pending evs : forall p w f r p' w' f',
  Forall (fun e => is_failure e = false) evs ->
  no_pending f ->
  Run_loop evs p w f = (r, p', w', Some f') -> no_pending f'.
Proof.
  induction evs as [|e evs IH]; intros p w f r p' w' f' Hev Hf H; simpl in H.
  - by inversion H; subst.
  - inversion Hev as [|? ? He Hev']; subst.
    pose proof (loop_step_no_pending e p w f He Hf) as Hs.
    destruct (loop_step e p w f) as [p1 w1 f1 | x p1 w1 f1].
    + eauto.
    + by inversion H; subst.
Qed.

Lemma Run_no_pending p0 w0 c K evs r p w f :
  Forall (fun e => is_failure e = false) evs ->
  Run p0 w0 c K evs = (r, p, w, Some f) -> no_pending f.
Proof.
  intros Hev. unfold Run, Run_entry.
  destruct (Z.eqb_spec K 0); [done |].
  destruct c as [c'|]; [| done].
  destruct (running p0); [done |].
  apply Run_loop_no_pending; [done |]. split; [done | constructor].
Qed.

(** While an error sits in the channel, the steps of the other goroutines
    leave it there and the controller goes on waiting. *)
Lemma background_keeps_error mid : forall p w f x,
  Forall (fun e => is_controller e = false) mid ->
  errCh f = [x] ->
  exists p' w' f',
    errCh f' = [x] /\ running p' = running p
    /\ forall rest, Run_loop (mid ++ rest) p w f = Run_loop rest p' w' f'.
Proof.
  induction mid as [|e mid IH]; intros p w f x Hmid Hch.
  - exists p, w, f. done.
  - inversion Hmid as [|? ? He Hmid']; subst.
    assert (exists w1 f1,
              loop_step e p w f = Continue (notify e p) w1 f1
              /\ errCh f1 = [x]) as (w1 & f1 & Hs & Hch1).
    { destruct e; simpl in *; try done; eauto.
      - unfold emitter_WriteTo.
        destruct (emitters f !! i) as [[]|]; eauto.
        destruct res; eauto. do 2 eexists. split; [done |].
        by apply chan_send_full.
      - unfold emitter_Send.
        destruct (emitters f !! i) as [[]|]; eauto.
        do 2 eexists. split; [done |]. by apply chan_send_full. }
    destruct (IH (notify e p) w1 f1 x Hmid' Hch1) as (p' & w' & f' & H1 & H2 & H3).
    exists p', w', f'. split; [done |]. split.
    { by rewrite H2, notify_running. }
    intros rest. simpl. rewrite Hs. apply H3.
Qed.

Lemma Run_loop_background e evs p w f :
  is_controller e = false ->
  Run_loop (e :: evs) p w f
  = Run_loop evs (notify e p) (goroutines e p w f).1 (goroutines e p w f).2.
Proof.
  intros He. simpl Run_loop.
  destruct e; simpl in *; try done.
  by destruct (emitter_WriteTo i res p w f).
Qed.

(** C7, as stated, fails.  In the first run the write of the emitter fails
    with "connection reset" and the wrapped error is in the channel, but the
    select takes the cancelled context: Run returns nil.  In the second run a
    PINGRESP lets a second emitter start while the first is still writing;
    both writes fail; the channel holds the first error and the second
    emitter stays blocked in its send. *)
Lemma C7_failed_write_not_returned_and_send_blocks :
  let e := errorString "connection reset" in
  let wrapped := wrapError "failed to send PINGREQ: connection reset" e in
  Run NewDefaultPinger (mkWorld [] []) (Some 0%nat) 1
    [EvTimer 5000000000 5000000001; EvWriteTo 0 (Some e); EvCtxDone]
  = (Some (Return None), NewDefaultPinger,
     mkWorld [(0%nat, PINGREQ, Some e)] [],
     Some (mkFrame 0%nat 1000000000 1000000000 5000000001 [wrapped] [Exited]))
  /\ Run NewDefaultPinger (mkWorld [] []) (Some 0%nat) 1
       [EvTimer 5000000000 5000000001; EvPingResp 5000000002;
        EvTimer 6000000001 6000000002;
        EvWriteTo 0 (Some e); EvWriteTo 1 (Some e); EvCtxDone]
     = (Some (Return None), PingResp 5000000002 NewDefaultPinger,
        mkWorld [(0%nat, PINGREQ, Some e); (0%nat, PINGREQ, Some e)] [],
        Some (mkFrame 0%nat 1000000000 1000000000 6000000002 [wrapped]
                [Exited; Sending wrapped])).
Proof. split; reflexivity. Qed.

(** C7, amended: when the write of an emitter fails with an error e, and no
    error of an earlier emitter of this Run is there before it, the emitter
    logs it
    and sends [fmt.Errorf("failed to send PINGREQ: %w", e)] on errCh; the
    channel has capacity 1 and is empty, so the send goes through at once,
    whether the Run still waits in its select or has already returned.  If
    the Run is still in its loop, the next case of the select that is taken
    being the error channel, Run returns that error, from which [Unwrap]
    gives back e, and the flag is given back. *)
Theorem C7_write_failure_is_returned
    (p0 : DefaultPinger) (w0 : World) (c : option Conn) (K : uint16)
    (evs : list event) (r : option exit) (p : DefaultPinger) (w : World)
    (f : Frame) (i : nat) (e : error) (mid rest : list event) :
  0 < K ->
  Run p0 w0 c K evs = (r, p, w, Some f) ->
  Forall (fun ev => is_failure ev = false) evs ->
  emitters f !! i = Some Writing ->
  Forall (fun ev => is_controller ev = false) mid ->
  let err := Errorf_w "failed to send PINGREQ: " e in
  Unwrap err = Some e
  /\ (1 <= errCh_cap)%nat
  /\ (forall q v,
        goroutines (EvWriteTo i (Some e)) q v f
        = (println (debug q) ("DefaultPinger packet write error: " +:+ Error e)
             (record_write (conn f) (Some e) v),
           set_emitters (<[i := Exited]> (emitters f)) (set_errCh [err] f)))
  /\ (r = None ->
      exists p' w' f',
        Run p0 w0 c K (evs ++ EvWriteTo i (Some e) :: mid ++ EvErrCh :: rest)
        = (Some (Return (Some err)), p', w', Some f')
        /\ running p' = false).
Proof.
  intros _ HRun Hev Hi Hmid err.
  destruct (Run_no_pending _ _ _ _ _ _ _ _ _ Hev HRun) as [Hch Hem].
  assert (forall q v,
            goroutines (EvWriteTo i (Some e)) q v f
            = (println (debug q) ("DefaultPinger packet write error: " +:+ Error e)
                 (record_write (conn f) (Some e) v),
               set_emitters (<[i := Exited]> (emitters f)) (set_errCh [err] f)))
    as Hsend.
  { intros q v. simpl. unfold emitter_WriteTo. rewrite Hi.
    by rewrite chan_send_empty. }
  split; [done |]. split; [unfold errCh_cap; lia |]. split; [done |].
  intros ->.
  rewrite (Run_app _ _ _ _ _ _ _ _ _ HRun).
  rewrite Run_loop_background by done.
  rewrite Hsend. simpl notify. simpl fst. simpl snd.
  edestruct (background_keeps_error mid p
               (println (debug p) ("DefaultPinger packet write error: " +:+ Error e)
                  (record_write (conn f) (Some e) w))
               (set_emitters (<[i := Exited]> (emitters f)) (set_errCh [err] f))
               err Hmid eq_refl)
    as (p' & w' & f' & Hch' & Hr' & Hloop).
  rewrite Hloop. simpl. rewrite Hch'.
  exists (Run_deferred p'), w', (set_errCh [] f'). done.
Qed.

Lemma C7_write_failure_is_returned_witness :
  exists p' w' f',
    Run NewDefaultPinger (mkWorld [] []) (Some 0%nat) 1
      ([EvTimer 5000000000 5000000001]
       ++ EvWriteTo 0 (Some (errorString "connection reset"))
          :: [EvPacketSent 5000000002] ++ EvErrCh :: [])
    = (Some (Return (Some (wrapError
                             "failed to send PINGREQ: connection reset"
                             (errorString "connection reset")))),
       p', w', Some f')
    /\ running p' = false.
Proof.
  refine (proj2 (proj2 (proj2
    (C7_write_failure_is_returned NewDefaultPinger (mkWorld [] [])
       (Some 0%nat) 1 [EvTimer 5000000000 5000000001] None
       (set_running true NewDefaultPinger) (mkWorld [] [])
       (mkFrame 0%nat 1000000000 1000000000 5000000001 [] [Writing])
       0%nat (errorString "connection reset") [EvPacketSent 5000000002] []
       _ _ _ _ _))) eq_refl).
  - lia.
  - reflexivity.
  - repeat constructor.
  - reflexivity.
  - repeat constructor.
Defined.

(** * Further properties of the pinger *)

(** ** The flag along one Run *)

Lemma Run_entry_started p w c K :
  K <> 0 -> running p = false ->
  Run_entry p w (Some c) K = Started (set_running true p) (fresh_frame c K).
Proof.
  intros HK Hr. unfold Run_entry. rewrite Hr.
  by destruct (Z.eqb_spec K 0).
Qed.

Lemma Run_loop_running evs : forall p w f,
  running (Run_loop evs p w f).1.1.2
  = match (Run_loop evs p w f).1.1.1 with
    | None => running p
    | Some _ => false
    end.
Proof.
  induction evs as [|e evs IH]; intros p w f; simpl; [done |].
  pose proof (loop_step_running e p w f) as H.
  destruct (loop_step e p w f) as [p1 w1 f1 | x p1 w1 f1]; [| done].
  by rewrite IH, H.
Qed.

(** X1: whatever the events, a Run that went into its loop has the flag on
    exactly while it has not returned: every way out of the loop (context
    cancelled, PINGRESP timeout, write error, panic) gives the flag back.  A
    Run that returns at its entry leaves the pinger as it found it. *)
Theorem X1_every_exit_gives_the_flag_back
    (p0 : DefaultPinger) (w0 : World) (c : option Conn) (K : uint16)
    (evs : list event) :
  let '(r, p', _, o) := Run p0 w0 c K evs in
  match o with
  | None => p' = p0 /\ r <> None
  | Some _ =>
      running p0 = false
      /\ running p' = match r with None => true | Some _ => false end
  end.
Proof.
  unfold Run, Run_entry.
  destruct (Z.eqb_spec K 0); [done |].
  destruct c as [c'|]; [| done].
  destruct (running p0) eqn:Hr; [done |].
  pose proof (Run_loop_running evs (set_running true p0) w0
                (mkFrame c' (interval_of K) 0 time.zero [] [])) as H.
  pose proof (Run_loop_frame evs (set_running true p0) w0
                (mkFrame c' (interval_of K) 0 time.zero [] [])) as Hf.
  destruct (Run_loop evs _ _ _) as [[[r p'] w'] o].
  destruct (Hf _ _ _ _ eq_refl) as [f' ->]. simpl in H.
  split; [done |]. rewrite H. by destruct r.
Qed.

(** X2: Run may be called again on the same pinger once the earlier Run has
    returned: the new Run enters its loop with a fresh frame (lastPingSent
    zero, empty error channel, no emitter, timer armed with 0) and with the
    traffic stamps the pinger has.  While the earlier Run still waits, the
    new one is turned away with "Run() already in progress". *)
Theorem X2_Run_again_after_return
    (p0 : DefaultPinger) (w0 : World) (c : Conn) (K : uint16)
    (evs : list event) (r : option exit) (p' : DefaultPinger) (w' : World)
    (f : Frame) (c2 : Conn) (K2 : uint16) (w2 : World) (evs2 : list event) :
  Run p0 w0 (Some c) K evs = (r, p', w', Some f) ->
  K2 <> 0 ->
  match r with
  | None =>
      Run p' w2 (Some c2) K2 evs2
      = (Some (Return (Some (errorString "Run() already in progress"))),
         p', w2, None)
  | Some _ =>
      Run p' w2 (Some c2) K2 evs2
      = Run_loop evs2 (set_running true p') w2 (fresh_frame c2 K2)
      /\ stamps_eq (set_running true p') p'
  end.
Proof.
  intros H HK2.
  assert (running p' = match r with None => true | Some _ => false end) as Hr.
  { revert H. unfold Run, Run_entry.
    destruct (Z.eqb_spec K 0); [done |].
    destruct (running p0); [done |]. intros H.
    pose proof (Run_loop_running evs (set_running true p0) w0
                  (mkFrame c (interval_of K) 0 time.zero [] [])) as Hl.
    rewrite H in Hl. simpl in Hl. rewrite Hl. by destruct r. }
  unfold Run, Run_entry. destruct (Z.eqb_spec K2 0); [done |].
  rewrite Hr. by destruct r.
Qed.

Lemma X2_Run_again_after_return_witness :
  Run (PacketSent 7 NewDefaultPinger) (mkWorld [] []) (Some 1%nat) 2 [EvTimer 9 9]
  = Run_loop [EvTimer 9 9] (set_running true (PacketSent 7 NewDefaultPinger))
      (mkWorld [] []) (fresh_frame 1%nat 2)
  /\ stamps_eq (set_running true (PacketSent 7 NewDefaultPinger))
       (PacketSent 7 NewDefaultPinger).
Proof.
  exact (X2_Run_again_after_return NewDefaultPinger (mkWorld [] []) 0%nat 1
           [EvPacketSent 7; EvCtxDone] (Some (Return None))
           (PacketSent 7 NewDefaultPinger) (mkWorld [] [])
           (mkFrame 0%nat 1000000000 0 0 [] [])
           1%nat 2 (mkWorld [] []) [EvTimer 9 9]
           eq_refl ltac:(lia)).
Defined.



(** ** What is written to the transport *)

Lemma n_written_app l1 l2 :
  n_written (l1 ++ l2) = (n_written l1 + n_written l2)%nat.
Proof. induction l1 as [|x l1 IH]; simpl; [done |]. rewrite IH. lia. Qed.

Lemma n_written_insert l : forall i x y,
  l !! i = Some x ->
  (n_written (<[i:=y]> l) + (if has_written x then 1 else 0)
   = n_written l + (if has_written y then 1 else 0))%nat.
Proof.
  induction l as [|z l IH]; intros [|i] x y H; simpl in *; try done.
  - inversion H; subst. lia.
  - specialize (IH _ _ y H). lia.
Qed.

Lemma chan_send_conn i err f : conn (chan_send i err f) = conn f.
Proof. unfold chan_send. by destruct (_ <? _)%nat. Qed.

Lemma chan_send_n_written i err f x :
  emitters f !! i = Some x ->
  (n_written (emitters (chan_send i err f)) + (if has_written x then 1 else 0)
   = n_written (emitters f) + 1)%nat.
Proof.
  intros H. unfold chan_send.
  destruct (_ <? _)%nat; simpl;
    pose proof (n_written_insert _ _ _ Exited H);
    pose proof (n_written_insert _ _ _ (Sending err) H); simpl in *; lia.
Qed.

Lemma println_writes l line w : writes (println l line w) = writes w.
Proof. by destruct l. Qed.

Lemma goroutines_writes_inv base e p w f :
  writes_inv base w f ->
  writes_inv base (goroutines e p w f).1 (goroutines e p w f).2.
Proof.
  intros (done & Hw & Hall & Hlen).
  destruct e; simpl; try (by exists done).
  - unfold emitter_WriteTo.
    destruct (emitters f !! i) as [[]|] eqn:Hi; try (by exists done).
    destruct res as [err|]; simpl.
    + exists (done ++ [(conn f, PINGREQ, Some err)]).
      rewrite println_writes, chan_send_conn. simpl. rewrite Hw.
      split; [by rewrite app_assoc |]. split.
      * apply Forall_app. split; [done |]. by constructor.
      * pose proof (chan_send_n_written i
                      (Errorf_w "failed to send PINGREQ: " err) f _ Hi) as H.
        simpl in H. rewrite length_app. simpl. lia.
    + exists (done ++ [(conn f, PINGREQ, None)]). simpl. rewrite Hw.
      split; [by rewrite app_assoc |]. split.
      * apply Forall_app. split; [done |]. by constructor.
      * pose proof (n_written_insert _ _ _ Exited Hi) as H.
        simpl in H. rewrite length_app. simpl. lia.
  - unfold emitter_Send.
    destruct (emitters f !! i) as [[]|] eqn:Hi; try (by exists done).
    exists done. rewrite chan_send_conn. split; [done |]. split; [done |].
    pose proof (chan_send_n_written i err f _ Hi) as H. simpl in H. lia.
Qed.

Lemma loop_step_writes_inv base e p w f :
  writes_inv base w f ->
  match loop_step e p w f with
  | Continue _ w' f' | Exit _ _ w' f' => writes_inv base w' f'
  end.
Proof.
  intros Hinv.
  pose proof (goroutines_writes_inv base e p w f Hinv) as Hg.
  destruct e; simpl in *; try done.
  - unfold tick, tick_with.
    destruct Hinv as (done & Hw & Hall & Hlen).
    destruct (_ && _).
    { exists done. by rewrite println_writes. }
    destruct (time.Before _ _); [by exists done |].
    exists done. simpl. split; [done |]. split; [done |].
    rewrite n_written_app. simpl. lia.
  - destruct (errCh f); [done |]. destruct Hinv as (done & H). by exists done.
  - by destruct (emitter_WriteTo i res p w f).
Qed.

Lemma Run_loop_writes_inv base evs : forall p w f r p' w' f',
  writes_inv base w f ->
  Run_loop evs p w f = (r, p', w', Some f') ->
  writes_inv base w' f'.
Proof.
  induction evs as [|e evs IH]; intros p w f r p' w' f' Hinv H; simpl in H.
  - by inversion H; subst.
  - pose proof (loop_step_writes_inv base e p w f Hinv) as Hs.
    destruct (loop_step e p w f) as [p1 w1 f1 | x p1 w1 f1].
    + eauto.
    + by inversion H; subst.
Qed.

Lemma loop_step_conn e p w f :
  match loop_step e p w f with
  | Continue _ _ f' | Exit _ _ _ f' => conn f' = conn f
  end.
Proof.
  destruct e; simpl; try done.
  - unfold tick, tick_with. destruct (_ && _); [done |].
    by destruct (time.Before _ _).
  - by destruct (errCh f).
  - unfold emitter_WriteTo. destruct (emitters f !! i) as [[]|]; try done.
    destruct res; simpl; [apply chan_send_conn | done].
  - unfold emitter_Send. destruct (emitters f !! i) as [[]|]; try done.
    apply chan_send_conn.
Qed.

Lemma Run_loop_conn evs : forall p w f r p' w' f',
  Run_loop evs p w f = (r, p', w', Some f') -> conn f' = conn f.
Proof.
  induction evs as [|e evs IH]; intros p w f r p' w' f' H; simpl in H.
  - by inversion H.
  - pose proof (loop_step_conn e p w f) as Hs.
    destruct (loop_step e p w f) as [p1 w1 f1 | x p1 w1 f1].
    + rewrite <- Hs. eauto.
    + by inversion H; subst.
Qed.

(** X4: all that a Run ever writes is PINGREQ packets on the transport it
    was given: whatever the events, the writes recorded when the Run stops
    or waits are the earlier ones followed by one write of the two bytes
    0xC0 0x00 on [c] for each emitter whose WriteTo has returned, and no
    other; a Run that returns at its entry writes nothing. *)
Theorem X4_only_PINGREQ_is_written
    (p0 : DefaultPinger) (w0 : World) (c : option Conn) (K : uint16)
    (evs : list event) :
  let '(_, _, w', o) := Run p0 w0 c K evs in
  match o with
  | None => writes w' = writes w0
  | Some f =>
      c = Some (conn f)
      /\ exists done,
           writes w' = writes w0 ++ done
           /\ Forall (ping_write (conn f)) done
           /\ length done = n_written (emitters f)
           /\ (length done <= length (emitters f))%nat
  end.
Proof.
  unfold Run, Run_entry.
  destruct (Z.eqb_spec K 0); [by rewrite println_writes |].
  destruct c as [c'|]; [| done].
  destruct (running p0) eqn:Hr; [done |].
  set (f0 := mkFrame c' (interval_of K) 0 time.zero [] []).
  assert (writes_inv (writes w0) w0 f0) as H0.
  { exists []. rewrite app_nil_r. repeat split. constructor. }
  pose proof (Run_loop_writes_inv (writes w0) evs (set_running true p0) w0 f0) as Hw.
  pose proof (Run_loop_frame evs (set_running true p0) w0 f0) as Hf.
  destruct (Run_loop evs _ _ _) as [[[r p'] w'] o] eqn:E.
  destruct (Hf _ _ _ _ eq_refl) as [f' ->].
  destruct (Hw _ _ _ _ H0 eq_refl) as (done & H1 & H2 & H3).
  assert (conn f' = c') as Hc by (by rewrite (Run_loop_conn _ _ _ _ _ _ _ _ E)).
  split; [by rewrite Hc |].
  exists done. repeat split; try done.
  rewrite H3. clear. induction (emitters f') as [|em l IH]; simpl; [done |].
  destruct (has_written em); lia.
Qed.

Lemma X4_only_PINGREQ_is_written_witness :
  let '(_, _, w', _) :=
    Run NewDefaultPinger (mkWorld [] []) (Some 3%nat) 1
      [EvTimer 5000000000 5000000001; EvWriteTo 0 None] in
  writes w' = [(3%nat, [Byte.xc0; Byte.x00], None)].
Proof.
  pose proof (X4_only_PINGREQ_is_written NewDefaultPinger (mkWorld [] [])
                (Some 3%nat) 1 [EvTimer 5000000000 5000000001; EvWriteTo 0 None])
    as H.
  simpl in H. destruct H as (_ & done & H & _). reflexivity.
Defined.

(** ** The timer case, further *)

(** X5: when a tick finds no unanswered ping and the ping not yet due, no
    PINGREQ is sent and the timer is rearmed with a positive delay: the time
    left to the deadline (cut at the largest Duration).  When one of the two
    traffic stamps is not after the tick time, that delay is at most the
    keepalive. *)
Theorem X5_rearm_delay
    (p0 : DefaultPinger) (w0 : World) (c : option Conn) (K : uint16)
    (evs : list event) (p : DefaultPinger) (w : World) (f : Frame)
    (t now : time.Time) :
  0 < K < 65536 ->
  Run p0 w0 c K evs = (None, p, w, Some f) ->
  lastPingSent f = 0 \/ lastPingSent f <= lastPingResponse p ->
  t < pingDue p (interval f) ->
  exists d,
    tick p w f t now = Continue p w (set_timer d f)
    /\ 0 < d
    /\ d = Z.min (pingDue p (interval f) - t) time.maxDuration
    /\ (lastPacketSent p <= t \/ lastPacketReceived p <= t ->
        d = pingDue p (interval f) - t /\ d <= K * time.Second).
Proof.
  intros HK H Hno Hdue. apply Run_interval in H.
  exists (time.Sub (pingDue p (interval f)) t).
  split.
  { unfold tick, tick_with, time.IsZero, time.After, time.Before.
    replace (negb (lastPingSent f =? 0)
             && (lastPingSent f >? lastPingResponse p)) with false.
    2:{ symmetry. apply andb_false_iff.
        destruct Hno as [-> | Hle]; [by left | right].
        destruct (Z.gtb_spec (lastPingSent f) (lastPingResponse p)); [lia | done]. }
    destruct (Z.ltb_spec t (pingDue p (interval f))); [done | lia]. }
  assert (time.Sub (pingDue p (interval f)) t
          = Z.min (pingDue p (interval f) - t) time.maxDuration) as Hsub.
  { unfold time.Sub, time.maxDuration, time.minDuration.
    destruct (Z.gtb_spec (pingDue p (interval f) - t) (2 ^ 63 - 1)); [lia |].
    destruct (Z.ltb_spec (pingDue p (interval f) - t) (- 2 ^ 63)); lia. }
  rewrite Hsub. unfold time.maxDuration.
  split; [lia |]. split; [done |].
  intros Hst. rewrite pingDue_min, H in *. unfold time.Second in *. lia.
Qed.

Lemma X5_rearm_delay_witness :
  exists d,
    tick (PacketReceived 4000000000
            (PacketSent 4500000000 (set_running true NewDefaultPinger)))
         (mkWorld [] []) (fresh_frame 0%nat 2) 5000000000 5000000001
    = Continue (PacketReceived 4000000000
                  (PacketSent 4500000000 (set_running true NewDefaultPinger)))
        (mkWorld [] []) (set_timer d (fresh_frame 0%nat 2))
    /\ 0 < d.
Proof.
  destruct (X5_rearm_delay NewDefaultPinger (mkWorld [] []) (Some 0%nat) 2
              [EvPacketSent 4500000000; EvPacketReceived 4000000000]
              (PacketReceived 4000000000
                 (PacketSent 4500000000 (set_running true NewDefaultPinger)))
              (mkWorld [] []) (fresh_frame 0%nat 2) 5000000000 5000000001
              ltac:(lia) eq_refl ltac:(left; reflexivity)
              ltac:(vm_compute; reflexivity))
    as (d & H1 & H2 & _).
  exists d. split; assumption.
Defined.

(** X6: the first timer fire of a Run, whenever it comes, never ends the
    Run.  It sends the first PINGREQ, and stamps lastPingSent, unless one of
    the traffic stamps the pinger already carries is less than the
    keepalive old: then no PINGREQ is sent and the timer is rearmed for the
    time left. *)
Theorem X6_first_tick
    (p0 : DefaultPinger) (w0 : World) (c : Conn) (K : uint16)
    (t now : time.Time) :
  K <> 0 ->
  running p0 = false ->
  let due := Z.min (lastPacketSent p0) (lastPacketReceived p0) + K * time.Second in
  Run p0 w0 (Some c) K [EvTimer t now]
  = (None, set_running true p0, w0,
     Some (if t <? due
           then mkFrame c (K * time.Second) (time.Sub due t) time.zero [] []
           else mkFrame c (K * time.Second) (K * time.Second) now [] [Writing])).
Proof.
  intros HK Hr due. unfold Run. rewrite Run_entry_started by done.
  simpl. unfold tick. rewrite pingDue_min. simpl.
  unfold tick_with. simpl. unfold time.Before.
  unfold interval_of. subst due. by destruct (t <? _).
Qed.

Lemma X6_first_tick_witness :
  Run NewDefaultPinger (mkWorld [] []) (Some 0%nat) 1 [EvTimer 5000000000 5000000001]
  = (None, set_running true NewDefaultPinger, mkWorld [] [],
     Some (mkFrame 0%nat 1000000000 1000000000 5000000001 [] [Writing])).
Proof.
  exact (X6_first_tick NewDefaultPinger (mkWorld [] []) 0%nat 1
           5000000000 5000000001 ltac:(lia) eq_refl).
Defined.

Lemma tick_answered p w f t now :
  lastPingSent f <= lastPingResponse p ->
  exists f',
    tick p w f t now = Continue p w f'
    /\ lastPingSent f' <= Z.max (lastPingSent f) now.
Proof.
  intros Hle. unfold tick, tick_with, time.After.
  destruct (Z.gtb_spec (lastPingSent f) (lastPingResponse p)); [lia |].
  rewrite andb_false_r.
  destruct (time.Before _ _); eexists; (split; [reflexivity |]); simpl; lia.
Qed.

Lemma background_keeps_answer mid : forall p w f,
  lastPingSent f <= lastPingResponse p ->
  Forall (fun e => is_controller e = false /\ is_PingResp e = false) mid ->
  exists p' w' f',
    lastPingSent f' <= lastPingResponse p'
    /\ forall rest, Run_loop (mid ++ rest) p w f = Run_loop rest p' w' f'.
Proof.
  induction mid as [|e mid IH]; intros p w f Hle Hmid.
  - exists p, w, f. done.
  - inversion Hmid as [|? ? [Hc Hp] Hmid']; subst.
    assert (lastPingResponse (notify e p) = lastPingResponse p) as Hn
      by (by destruct e).
    pose proof (goroutines_lastPingSent e p w f) as Hg.
    destruct (IH (notify e p) (goroutines e p w f).1 (goroutines e p w f).2)
      as (p' & w' & f' & H1 & H2); [lia | done |].
    exists p', w', f'. split; [done |]. intros rest.
    rewrite <- app_comm_cons, Run_loop_background by done. apply H2.
Qed.

(** X7: a PINGRESP answers the ping: when PingResp is called with a clock
    reading that is not before lastPingSent, the next timer fire does not
    end the Run with a timeout, whatever the emitters and the other
    notifications do in between (no later PingResp being needed). *)
Theorem X7_PingResp_answers_the_ping
    (p0 : DefaultPinger) (w0 : World) (c : option Conn) (K : uint16)
    (evs : list event) (p : DefaultPinger) (w : World) (f : Frame)
    (r : time.Time) (mid : list event) (t now : time.Time) :
  Run p0 w0 c K evs = (None, p, w, Some f) ->
  lastPingSent f <= r ->
  Forall (fun e => is_controller e = false /\ is_PingResp e = false) mid ->
  exists p' w' f',
    Run p0 w0 c K (evs ++ EvPingResp r :: mid ++ [EvTimer t now])
    = (None, p', w', Some f').
Proof.
  intros H Hr Hmid.
  rewrite (Run_app _ _ _ _ _ _ _ _ _ H).
  rewrite Run_loop_background by done. simpl.
  destruct (background_keeps_answer mid (PingResp r p) w f Hr Hmid)
    as (p' & w' & f' & Hle & Hloop).
  rewrite Hloop. simpl.
  destruct (tick_answered p' w' f' t now Hle) as (f'' & -> & _).
  by exists p', w', f''.
Qed.

Lemma X7_PingResp_answers_the_ping_witness :
  exists p' w' f',
    Run NewDefaultPinger (mkWorld [] []) (Some 0%nat) 1
      ([EvTimer 5000000000 5000000001]
       ++ EvPingResp 5000000200 :: [EvWriteTo 0 None]
       ++ [EvTimer 6000000001 6000000002])
    = (None, p', w', Some f').
Proof.
  refine (X7_PingResp_answers_the_ping NewDefaultPinger (mkWorld [] [])
            (Some 0%nat) 1 [EvTimer 5000000000 5000000001]
            (set_running true NewDefaultPinger) (mkWorld [] [])
            (mkFrame 0%nat 1000000000 1000000000 5000000001 [] [Writing])
            5000000200 [EvWriteTo 0 None] 6000000001 6000000002
            eq_refl _ _).
  - simpl. lia.
  - repeat constructor.
Defined.

Lemma chan_send_length i err f :
  length (emitters (chan_send i err f)) = length (emitters f).
Proof. unfold chan_send. destruct (_ <? _)%nat; simpl; apply length_insert. Qed.

Lemma goroutines_length e p w f :
  length (emitters (goroutines e p w f).2) = length (emitters f).
Proof.
  destruct e; simpl; try done.
  - unfold emitter_WriteTo. destruct (emitters f !! i) as [[]|]; try done.
    destruct res; simpl; [apply chan_send_length | apply length_insert].
  - unfold emitter_Send. destruct (emitters f !! i) as [[]|]; try done.
    apply chan_send_length.
Qed.

Lemma Run_loop_ping_sent evs : forall p w f r p' w' f',
  Forall clock_nonzero evs ->
  (lastPingSent f = 0 <-> length (emitters f) = 0%nat) ->
  Run_loop evs p w f = (r, p', w', Some f') ->
  (lastPingSent f' = 0 <-> length (emitters f') = 0%nat).
Proof.
  induction evs as [|e evs IH]; intros p w f r p' w' f' Hev Hinv H; simpl in H.
  - by inversion H; subst.
  - inversion Hev as [|? ? He Hev']; subst.
    assert (match loop_step e p w f with
            | Continue _ _ f1 | Exit _ _ _ f1 =>
                lastPingSent f1 = 0 <-> length (emitters f1) = 0%nat
            end) as Hs.
    { pose proof (goroutines_length e p w f) as Hl.
      pose proof (goroutines_lastPingSent e p w f) as Hp.
      destruct e; simpl in *; try done.
      - unfold tick, tick_with. destruct (_ && _); [done |].
        destruct (time.Before _ _); [done |]. simpl.
        rewrite length_app. simpl. split; [done | lia].
      - by destruct (errCh f).
      - destruct (emitter_WriteTo i res p w f). simpl in *. by rewrite Hl, Hp.
      - by rewrite Hl, Hp. }
    destruct (loop_step e p w f) as [p1 w1 f1 | x p1 w1 f1].
    + eauto.
    + by inversion H; subst.
Qed.

(** X8: with a clock whose readings are not the zero Time, lastPingSent is
    zero exactly as long as the Run has started no emitter: it is the mark
    of a PINGREQ having been dispatched. *)
Theorem X8_lastPingSent_marks_a_dispatch
    (p0 : DefaultPinger) (w0 : World) (c : option Conn) (K : uint16)
    (evs : list event) (r : option exit) (p : DefaultPinger) (w : World)
    (f : Frame) :
  Forall clock_nonzero evs ->
  Run p0 w0 c K evs = (r, p, w, Some f) ->
  (lastPingSent f = 0 <-> emitters f = []).
Proof.
  intros Hev. unfold Run, Run_entry.
  destruct (Z.eqb_spec K 0); [done |].
  destruct c as [c'|]; [| done].
  destruct (running p0); [done |].
  intros H. apply Run_loop_ping_sent in H; [| done | done].
  rewrite H. split; [apply nil_length_inv | by intros ->].
Qed.

Lemma X8_lastPingSent_marks_a_dispatch_witness :
  lastPingSent (mkFrame 0%nat 1000000000 1000000000 5000000001 [] [Exited]) = 0
  <-> emitters (mkFrame 0%nat 1000000000 1000000000 5000000001 [] [Exited]) = [].
Proof.
  refine (X8_lastPingSent_marks_a_dispatch NewDefaultPinger (mkWorld [] [])
            (Some 0%nat) 1 [EvTimer 5000000000 5000000001; EvWriteTo 0 None]
            None (set_running true NewDefaultPinger)
            (mkWorld [(0%nat, PINGREQ, None)] [])
            (mkFrame 0%nat 1000000000 1000000000 5000000001 [] [Exited])
            _ eq_refl).
  repeat constructor. simpl. lia.
Defined.

(** ** What Run returns *)

Lemma chan_send_errors_in Q i err f :
  Q err -> errors_in Q f -> errors_in Q (chan_send i err f).
Proof.
  intros Hq [Hch Hem]. unfold chan_send.
  destruct (_ <? _)%nat; split; simpl; try done.
  - apply Forall_app. split; [done |]. by constructor.
  - by apply Forall_insert.
  - by apply Forall_insert.
Qed.

Lemma goroutines_errors_in Q e p w f :
  (forall i x, e = EvWriteTo i (Some x) -> Q (ErrSendPingreq x)) ->
  errors_in Q f -> errors_in Q (goroutines e p w f).2.
Proof.
  intros He Hf. destruct e; simpl; try done.
  - unfold emitter_WriteTo.
    destruct (emitters f !! i) as [[]|]; try done.
    destruct res as [x|]; simpl.
    + apply chan_send_errors_in; [| done]. by eapply He.
    + destruct Hf as [Hch Hem]. split; [done |]. by apply Forall_insert.
  - unfold emitter_Send.
    destruct (emitters f !! i) as [[]|] eqn:Hi; try done.
    apply chan_send_errors_in; [| done].
    destruct Hf as [_ Hem]. eapply Forall_lookup_1 in Hem; [| exact Hi]. done.
Qed.

Lemma Run_loop_result Q evs : forall p w f,
  (forall i x, In (EvWriteTo i (Some x)) evs -> Q (ErrSendPingreq x)) ->
  errors_in Q f ->
  match (Run_loop evs p w f).1.1.1 with
  | None => True
  | Some (Return None) => In EvCtxDone evs
  | Some (Return (Some err)) => err = ErrPingRespTimeout \/ Q err
  | Some Panicked => In EvPanic evs
  end.
Proof.
  induction evs as [|e evs IH]; intros p w f Hev Hf; simpl; [done |].
  assert (forall i x, In (EvWriteTo i (Some x)) evs -> Q (ErrSendPingreq x))
    as Hev' by (intros; apply (Hev i); by right).
  assert (errors_in Q (goroutines e p w f).2) as Hg.
  { apply goroutines_errors_in; [| done].
    intros i x ->. apply (Hev i). by left. }
  destruct e; simpl in *.
  - by left.
  - unfold tick, tick_with.
    destruct (_ && _); simpl; [by left |].
    destruct (time.Before _ _).
    + specialize (IH p w (set_timer
                            (time.Sub (pingDue p (interval f)) t) f) Hev' Hf).
      destruct (Run_loop evs _ _ _) as [[[[[[]|]|] ?] ?] ?]; simpl in *; auto.
    + assert (errors_in Q (set_timer (interval f)
                             (spawn_emitter (set_lastPingSent now f)))) as Hf'.
      { destruct Hf as [Hch Hem]. split; [done |]. simpl.
        apply Forall_app. split; [done |]. by constructor. }
      specialize (IH p w _ Hev' Hf').
      destruct (Run_loop evs _ _ _) as [[[[[[]|]|] ?] ?] ?]; simpl in *; auto.
  - destruct (errCh f) as [|err rest] eqn:Hch.
    + specialize (IH p w f Hev' Hf).
      destruct (Run_loop evs _ _ _) as [[[[[[]|]|] ?] ?] ?]; simpl in *; auto.
    + simpl. right. destruct Hf as [Hq _]. rewrite Hch in Hq.
      by inversion Hq.
  - by left.
  - destruct (emitter_WriteTo i res p w f) as [w1 f1]. simpl in Hg.
    specialize (IH p w1 f1 Hev' Hg).
    destruct (Run_loop evs _ _ _) as [[[[[[]|]|] ?] ?] ?]; simpl in *; auto.
  - specialize (IH p w (emitter_Send i f) Hev' Hg).
    destruct (Run_loop evs _ _ _) as [[[[[[]|]|] ?] ?] ?]; simpl in *; auto.
  - specialize (IH (PacketSent now p) w f Hev' Hf).
    destruct (Run_loop evs _ _ _) as [[[[[[]|]|] ?] ?] ?]; simpl in *; auto.
  - specialize (IH (PacketReceived now p) w f Hev' Hf).
    destruct (Run_loop evs _ _ _) as [[[[[[]|]|] ?] ?] ?]; simpl in *; auto.
  - specialize (IH (PingResp now p) w f Hev' Hf).
    destruct (Run_loop evs _ _ _) as [[[[[[]|]|] ?] ?] ?]; simpl in *; auto.
Qed.

(** X9: what Run can return.  It returns nil only with keepAlive = 0 or
    when the select took the cancelled context.  An error it returns is
    "conn is nil", "Run() already in progress", "PINGRESP timed out", or
    [fmt.Errorf("failed to send PINGREQ: %w", x)] for an error x with which
    the WriteTo of one of its own emitters failed; nothing else ever comes
    out of the error channel. *)
Theorem X9_what_Run_returns
    (p0 : DefaultPinger) (w0 : World) (c : option Conn) (K : uint16)
    (evs : list event) :
  match (Run p0 w0 c K evs).1.1.1 with
  | None => K <> 0 /\ c <> None /\ running p0 = false
  | Some (Return None) => K = 0 \/ In EvCtxDone evs
  | Some (Return (Some err)) =>
      (K <> 0 /\ c = None /\ err = errorString "conn is nil")
      \/ (K <> 0 /\ running p0 = true
          /\ err = errorString "Run() already in progress")
      \/ err = ErrPingRespTimeout
      \/ exists i x, In (EvWriteTo i (Some x)) evs /\ err = ErrSendPingreq x
  | Some Panicked => In EvPanic evs
  end.
Proof.
  unfold Run, Run_entry.
  destruct (Z.eqb_spec K 0); [by left |].
  destruct c as [c'|]; [| by left].
  destruct (running p0) eqn:Hr; [right; by left |].
  pose proof (Run_loop_result
                (fun err => exists i x,
                     In (EvWriteTo i (Some x)) evs /\ err = ErrSendPingreq x)
                evs (set_running true p0) w0
                (mkFrame c' (interval_of K) 0 time.zero [] [])) as H.
  simpl in H.
  destruct (Run_loop evs _ _ _) as [[[[[[]|]|] ?] ?] ?]; simpl in *.
  - right. right. apply H; [by eauto | by split; constructor].
  - right. apply H; [by eauto | by split; constructor].
  - apply H; [by eauto | by split; constructor].
  - done.
Qed.

(** ** The logger *)

Lemma notify_SetDebug d e p : notify e (SetDebug d p) = SetDebug d (notify e p).
Proof. by destruct e. Qed.




(** * Further properties of the packet conversions *)

(** ** Connect *)

(** X11: a Connect survives the way to a packet and back when its
    properties are present with RequestResponseInfo false and it has will
    properties exactly when it has a will message (the user properties
    surviving their own conversion, and [Byte] giving a pointer to its
    argument): ConnectFromPacketConnect (c.Packet()) is c again. *)
Theorem X11_Connect_round_trip
    {PU U : Type} (from : list PU -> U) (to : U -> list PU)
    (byte : Z -> option Z) (c : Connect U) (cp : ConnectProperties U) :
  (forall u, from (to u) = u) ->
  (forall b, byte b = Some b) ->
  c_Properties c = Some cp ->
  RequestResponseInfo cp = false ->
  (c_WillMessage c = None <-> c_WillProperties c = None) ->
  ConnectFromPacketConnect from (Packet to byte c) = Completed c.
Proof.
  intros Hu Hb Hp Hrr Hwill.
  destruct c as [pw un cid props wm wp ka cs uf pf]. simpl in *. subst props.
  destruct cp as [ad am sei wdi rm tam mps us rpi rri]. simpl in *. subst rri.
  unfold ConnectFromPacketConnect, Packet, InitProperties_at, InitProperties.
  simpl. rewrite Hb.
  destruct wm as [[rt q tp pl]|], wp as [[w1 w2 w3 w4 w5 w6 w7]|];
    try (by destruct Hwill as [H1 H2]; (specialize (H1 eq_refl) || specialize (H2 eq_refl)));
    destruct rpi; simpl; unfold set_Properties, set_RequestProblemInfo,
      init_literal, set_WillProperties, set_WillMessage; simpl;
    rewrite ?Hu; reflexivity.
Qed.

Lemma X11_Connect_round_trip_witness :
  let cp := mkConnectProperties (list unit) [] "mk" (Some 30) None None None None
              [tt] false false in
  let c := mkConnect [] "u" "id" (Some cp) None None 60 true true false in
  ConnectFromPacketConnect (fun l => l) (Packet (fun l => l) Some c)
  = Completed c.
Proof.
  exact (X11_Connect_round_trip (fun l : list unit => l) (fun l => l) Some
           (mkConnect [] "u" "id"
              (Some (mkConnectProperties (list unit) [] "mk" (Some 30) None None
                       None None [tt] false false))
              None None 60 true true false)
           (mkConnectProperties (list unit) [] "mk" (Some 30) None None None None
              [tt] false false)
           (fun _ => eq_refl) (fun _ => eq_refl) eq_refl eq_refl
           (conj (fun _ => eq_refl) (fun _ => eq_refl))).
Defined.

(** X12: a Connect whose RequestResponseInfo is true does not survive the
    way to a packet and back ([Byte] giving a pointer to its argument).
    With RequestProblemInfo true (its default) Packet leaves
    [p.RequestProblemInfo] nil and the conversion back panics on it; and
    whenever the conversion back completes, RequestProblemInfo was false
    and the Connect it gives has RequestResponseInfo false. *)
Theorem X12_Connect_round_trip_loses_RequestResponseInfo
    {PU U : Type} (from : list PU -> U) (to : U -> list PU)
    (byte : Z -> option Z) (c : Connect U) (cp : ConnectProperties U) :
  (forall b, byte b = Some b) ->
  c_Properties c = Some cp ->
  RequestResponseInfo cp = true ->
  (RequestProblemInfo cp = true ->
   exists c', ConnectFromPacketConnect from (Packet to byte c) = NilDereference c')
  /\ (forall c',
        ConnectFromPacketConnect from (Packet to byte c) = Completed c' ->
        RequestProblemInfo cp = false
        /\ request_flags (Completed c') = Some (false, false)).
Proof.
  intros Hb Hp Hrr.
  destruct c as [pw un cid props wm wp ka cs uf pf]. simpl in *. subst props.
  destruct cp as [ad am sei wdi rm tam mps us rpi rri]. simpl in *. subst rri.
  unfold ConnectFromPacketConnect, Packet, InitProperties_at, InitProperties.
  simpl. rewrite !Hb.
  destruct rpi; simpl.
  - split; [eauto | done].
  - split; [done |]. intros c'.
    destruct wm as [m|]; simpl.
    + destruct wp; simpl; intros H; inversion H; done.
    + intros H; inversion H; done.
Qed.

Lemma X12_Connect_round_trip_loses_RequestResponseInfo_witness :
  exists c',
    ConnectFromPacketConnect (fun l : list unit => l)
      (Packet (fun l => l) Some
         (mkConnect [] "u" "id"
            (Some (mkConnectProperties (list unit) [] "mk" None None None None
                     None [] true true))
            None None 60 true false false))
    = NilDereference c'.
Proof.
  pose proof (X12_Connect_round_trip_loses_RequestResponseInfo
                (fun l : list unit => l) (fun l => l) Some
                (mkConnect [] "u" "id"
                   (Some (mkConnectProperties (list unit) [] "mk" None None None
                            None None [] true true))
                   None None 60 true false false)
                (mkConnectProperties (list unit) [] "mk" None None None None
                   None [] true true)
                (fun _ => eq_refl) eq_refl eq_refl) as [H _].
  exact (H eq_refl).
Defined.

(** X13: the will fields go together.  A Connect that
    ConnectFromPacketConnect completes has a will message exactly when the
    packet has the will flag, and has will properties exactly when it has a
    will message; a packet that Packet builds has the will flag exactly when
    the Connect has a will message, and carries will properties only with
    the will flag. *)
Theorem X13_will_fields_go_together
    {PU U : Type} (from : list PU -> U) (to : U -> list PU)
    (byte : Z -> option Z) :
  (forall p : PacketConnect PU,
     match ConnectFromPacketConnect from p with
     | Completed c =>
         (pc_WillFlag p = true <-> c_WillMessage c <> None)
         /\ (c_WillMessage c = None <-> c_WillProperties c = None)
     | NilDereference _ => True
     end)
  /\ (forall c : Connect U,
        (pc_WillFlag (Packet to byte c) = true <-> c_WillMessage c <> None)
        /\ (pc_WillProperties (Packet to byte c) <> None ->
            pc_WillFlag (Packet to byte c) = true)).
Proof.
  split.
  - intros p. unfold ConnectFromPacketConnect, InitProperties_at.
    destruct (pc_Properties p) as [pp|]; [| done].
    unfold InitProperties.
    destruct (p_RequestResponseInfo pp.1), (p_RequestProblemInfo pp.1);
      try done;
      (destruct (pc_WillFlag p);
       [ unfold InitWillProperties; destruct (pc_WillProperties p); [| done]
       | ]; simpl; repeat split; intros; congruence).
  - intros c. unfold Packet. simpl.
    destruct (c_WillMessage c); simpl; repeat split; intros; congruence.
Qed.

(** ** Auth *)

(** X14: an Auth with properties survives the way to a packet and back
    (the user properties surviving their own conversion); for an Auth
    without properties Packet builds a packet without properties, on which
    AuthFromPacketAuth panics. *)
Theorem X14_Auth_round_trip
    {PU U : Type} (from : list PU -> U) (to : U -> list PU) (a : Auth U) :
  (forall u, from (to u) = u) ->
  match auth_Properties a with
  | Some _ => AuthFromPacketAuth from (Auth_Packet to a) = Completed a
  | None =>
      AuthFromPacketAuth from (Auth_Packet to a)
      = NilDereference (mkAuth None (auth_ReasonCode a))
  end.
Proof.
  intros Hu. destruct a as [[[ad am rs us]|] code];
    unfold AuthFromPacketAuth, Auth_Packet, Auth_InitProperties; simpl;
    rewrite ?Hu; reflexivity.
Qed.

Lemma X14_Auth_round_trip_witness :
  AuthFromPacketAuth (fun l : list unit => l)
    (Auth_Packet (fun l => l)
       (mkAuth (Some (mkAuthProperties [] "SCRAM" "go on" [tt])) 24))
  = Completed (mkAuth (Some (mkAuthProperties [] "SCRAM" "go on" [tt])) 24).
Proof.
  exact (X14_Auth_round_trip (fun l : list unit => l) (fun l => l)
           (mkAuth (Some (mkAuthProperties [] "SCRAM" "go on" [tt])) 24)
           (fun _ => eq_refl)).
Defined.

(** X15: an AuthResponse never carries the authentication method or data.
    From a packet with properties, AuthResponseFromPacketAuth gives the
    reason code, reason string and user properties that AuthFromPacketAuth
    gives, with AuthMethod and AuthData empty and Success true; from a
    Disconnect with the same reason code and properties
    AuthResponseFromPacketDisconnect gives the same response, Success true
    included.  Without properties all three panic. *)
Theorem X15_AuthResponse_drops_the_method_and_data
    {PU U : Type} (from : list PU -> U) (a : PacketAuth PU) :
  AuthResponseFromPacketDisconnect from
    (mkPacketDisconnect (pa_Properties a) (pa_ReasonCode a))
  = AuthResponseFromPacketAuth from a
  /\ match AuthFromPacketAuth from a, AuthResponseFromPacketAuth from a with
     | Completed x, Some r =>
         ar_ReasonCode r = auth_ReasonCode x
         /\ ar_Success r = true
         /\ exists ap,
              auth_Properties x = Some ap
              /\ ar_Properties r
                 = Some (mkAuthProperties [] EmptyString
                           (ap_ReasonString ap) (ap_User ap))
     | NilDereference _, None => pa_Properties a = None
     | _, _ => False
     end.
Proof.
  split; [done |].
  unfold AuthFromPacketAuth, AuthResponseFromPacketAuth, Auth_InitProperties.
  destruct (pa_Properties a) as [pp|]; [| done]. simpl.
  repeat split. eexists. split; reflexivity.
Qed.
